(** * Greenlight API: the middleware pipeline of cmd/api

    A shallow embedding of cmd/api/context.go, cmd/api/middleware.go,
    cmd/api/routes.go, cmd/api/server.go and internal/validator, with the
    properties of the request pipeline stated and proved over it.

    Conventions.
    - A Go [string] is a [string]; header keys are written in their
      canonical MIME form, as net/http stores them.
    - [time.Time] and [time.Duration] are integers counting nanoseconds.
    - A handler mutates its [http.ResponseWriter] and the application
      state in place; here it returns both, together with the way it
      ended (a normal return or a panic).
    - One request is served at a time: the mutex of [rateLimit] and the
      atomic counters of [metrics] make each stage's critical section
      atomic, which is all the properties below rely on. *)

From Stdlib Require Import ZArith Lia Ascii String List DecimalString.
From stdpp Require Import base option list strings gmap fin_maps.
Import ListNotations.

Local Open Scope string_scope.
Local Open Scope list_scope.
Local Open Scope Z_scope.

(** ** Go values used across the pipeline *)

(** [error] values.  [Wrapped] is an error that wraps another one, as
    [fmt.Errorf] with the w verb builds; [errors_Is] follows the chain. *)
Inductive error : Type :=
| ErrRecordNotFound
| ErrServerClosed
| DeadlineExceeded
| ErrMsg (msg : string)
| Wrapped (msg : string) (inner : error).

Definition error_head_eqb (e target : error) : bool :=
  match e, target with
  | ErrRecordNotFound, ErrRecordNotFound => true
  | ErrServerClosed, ErrServerClosed => true
  | DeadlineExceeded, DeadlineExceeded => true
  | ErrMsg a, ErrMsg b => String.eqb a b
  | _, _ => false
  end.

Fixpoint errors_Is (e target : error) : bool :=
  error_head_eqb e target
  || match e with
     | Wrapped _ inner => errors_Is inner target
     | _ => false
     end.

(** A Go call returning [(T, error)]. *)
Inductive result (T : Type) : Type :=
| Ok (v : T)
| Err (e : error).
Arguments Ok {T} v.
Arguments Err {T} e.

(** ** strings.Split with a one-character separator *)

Fixpoint strings_Split (s : string) (sep : ascii) : list string :=
  match s with
  | EmptyString => [EmptyString]
  | String c rest =>
      if Ascii.eqb c sep then EmptyString :: strings_Split rest sep
      else match strings_Split rest sep with
           | hd :: tl => String c hd :: tl
           | [] => [String c EmptyString]
           end
  end.

Definition space : ascii := " "%char.

(** [contains c s]: the character occurs in the string. *)
Fixpoint contains (c : ascii) (s : string) : bool :=
  match s with
  | EmptyString => false
  | String d rest => Ascii.eqb d c || contains c rest
  end.

(** ** http.Header *)

Module HttpHeader.

Definition t : Type := gmap string (list string).

Definition Get (key : string) (h : t) : string :=
  match h !! key with
  | Some (v :: _) => v
  | _ => ""
  end.

Definition Values (key : string) (h : t) : list string :=
  default [] (h !! key).

Definition Add (key value : string) (h : t) : t :=
  <[key := (Values key h ++ [value])%list]> h.

Definition Set_ (key value : string) (h : t) : t :=
  <[key := [value]]> h.

End HttpHeader.

(** ** internal/validator *)

Module validator.

Record Validator : Type := { FieldErrors : gmap string string }.

Definition New : Validator := {| FieldErrors := ∅ |}.

Definition Valid (v : Validator) : bool :=
  bool_decide (size (FieldErrors v) = 0%nat).

Definition AddError (key message : string) (v : Validator) : Validator :=
  match FieldErrors v !! key with
  | Some _ => v
  | None => {| FieldErrors := <[key := message]> (FieldErrors v) |}
  end.

Definition Check (ok : bool) (key message : string) (v : Validator)
  : Validator :=
  if ok then v else AddError key message v.

(** [slices.Contains] over the permitted values. *)
Definition PermittedValue {T : Type} `{EqDecision T} (value : T)
    (permittedValues : list T) : bool :=
  existsb (λ p, bool_decide (p = value)) permittedValues.

(** The map [uniqueValues] that [Unique] fills, one key per value. *)
Definition uniqueValues {T : Type} `{Countable T} (values : list T)
    : gmap T bool :=
  fold_left (λ m value, <[value := true]> m) values ∅.

Definition Unique {T : Type} `{Countable T} (values : list T) : bool :=
  bool_decide (length values = size (uniqueValues values)).

End validator.

(** strconv.Itoa *)
Definition strconv_Itoa (n : Z) : string :=
  NilZero.string_of_int (Z.to_int n).

(** ** The data the pipeline handles *)

(** Modelled from the spec: [data.User] and [data.AnonymousUser] live in
    internal/data, which is not among the sources.  Section 3 of the
    specification gives a Principal the fields id, activated and
    isAnonymous, and a well-known sentinel for the anonymous one, which
    is never activated. *)
Record User : Type := {
  ID : Z;
  Activated : bool;
  IsAnonymous : bool
}.

Definition AnonymousUser : User :=
  {| ID := 0; Activated := false; IsAnonymous := true |}.

(** Modelled from the spec: [data.Permissions], a set of string codes
    with its membership test [Include]. *)
Definition Permissions_Include (code : string) (ps : gset string) : bool :=
  bool_decide (code ∈ ps).

Definition PermissionRead : string := "movies:read".
Definition PermissionWrite : string := "movies:write".
Definition ScopeAuthentication : string := "authentication".

(** Modelled from the spec: the [config] struct of cmd/api/main.go is not
    among the sources.  The fields are the ones this code reads
    ([port], [env], [limiter.enabled], [limiter.rps], [limiter.burst],
    [cors.trustedOrigins]) and the shutdown grace period that Section 6
    of the specification lists in the configuration surface. *)
Record config : Type := {
  port : Z;
  env : string;
  limiter_enabled : bool;
  limiter_rps : Z;
  limiter_burst : Z;
  cors_trustedOrigins : list string;
  shutdownGracePeriod : Z
}.

(** *** Request contexts (context.go) *)

Inductive contextKey : Type :=
| contextKeyUser            (* contextKey("user") of this package *)
| routerParamsKey.          (* the key under which httprouter stores Params *)

Inductive contextValue : Type :=
| UserValue (u : User)
| ParamsValue (ps : list (string * string)).

Definition contextKey_eqb (a b : contextKey) : bool :=
  match a, b with
  | contextKeyUser, contextKeyUser => true
  | routerParamsKey, routerParamsKey => true
  | _, _ => false
  end.

(** A context is the chain of [WithValue] calls, newest first. *)
Definition Context : Type := list (contextKey * contextValue).

Definition context_WithValue (k : contextKey) (v : contextValue)
    (ctx : Context) : Context :=
  (k, v) :: ctx.

Fixpoint context_Value (k : contextKey) (ctx : Context)
    : option contextValue :=
  match ctx with
  | [] => None
  | (k', v) :: rest =>
      if contextKey_eqb k' k then Some v else context_Value k rest
  end.

Record Request : Type := {
  Method : string;
  URLPath : string;
  ReqHeader : HttpHeader.t;
  Ctx : Context
}.

Definition WithContext (ctx : Context) (r : Request) : Request :=
  {| Method := Method r; URLPath := URLPath r;
     ReqHeader := ReqHeader r; Ctx := ctx |}.

Definition contextSetUser (r : Request) (user : User) : Request :=
  WithContext (context_WithValue contextKeyUser (UserValue user) (Ctx r)) r.

Definition missingUser : string := "missing user value in request context".

(** [contextGetUser] panics when the value is absent or is not a user:
    [inr] carries the value passed to [panic]. *)
Definition contextGetUser (r : Request) : User + string :=
  match context_Value contextKeyUser (Ctx r) with
  | Some (UserValue user) => inl user
  | _ => inr missingUser
  end.

(** *** Responses *)

(** Modelled from the spec: the categories of Section 7 of the
    specification and the status each one is sent with. *)
Inductive ErrorCategory : Type :=
| InvalidCredentialFormat
| AuthenticationRequired
| AccountInactive
| PermissionDenied
| RateLimitExceeded
| SystemFault.

Definition statusOf (c : ErrorCategory) : Z :=
  match c with
  | InvalidCredentialFormat => 401
  | AuthenticationRequired => 401
  | AccountInactive => 403
  | PermissionDenied => 403
  | RateLimitExceeded => 429
  | SystemFault => 500
  end.

(** The counters published by [metrics] through expvar. *)
Record expvars : Type := {
  total_requests_received : Z;
  total_responses_sent : Z;
  total_responses_sent_by_status : gmap string Z;
  total_processing_time_micros : Z
}.

Inductive body : Type :=
| ErrorBody (c : ErrorCategory)
| VarsBody (v : expvars)
| Bytes (b : string).

Definition StatusOK : Z := 200.
Definition MethodOptions : string := "OPTIONS".

(** [http.ResponseWriter]: the interface a handler writes to.  Go's
    [w.Header()] hands out the header map itself, so a handler changes
    it in place: [updHeader f] is that in-place change. *)
Class ResponseWriter (W : Type) : Type := {
  Header : W → HttpHeader.t;
  updHeader : (HttpHeader.t → HttpHeader.t) → W → W;
  WriteHeader : Z → W → W;
  Write : body → W → W
}.

(** The writer the server hands to the outermost handler.  It keeps the
    header map and every call made on it, oldest first. *)
Inductive call : Type :=
| CallWriteHeader (statusCode : Z)
| CallWrite (b : body).

Record recorder : Type := {
  recHeader : HttpHeader.t;
  recCalls : list call
}.

Definition newRecorder : recorder := {| recHeader := ∅; recCalls := [] |}.

#[export] Instance recorder_ResponseWriter : ResponseWriter recorder := {|
  Header w := recHeader w;
  updHeader f w := {| recHeader := f (recHeader w); recCalls := recCalls w |};
  WriteHeader c w :=
    {| recHeader := recHeader w;
       recCalls := (recCalls w ++ [CallWriteHeader c])%list |};
  Write b w :=
    {| recHeader := recHeader w;
       recCalls := (recCalls w ++ [CallWrite b])%list |}
|}.

(** What net/http sends for a sequence of calls: the status is the one
    of the first [WriteHeader], or 200 when [Write] comes first; later
    [WriteHeader] calls are superfluous. *)
Definition sentStatus (calls : list call) : option Z :=
  match calls with
  | [] => None
  | CallWriteHeader c :: _ => Some c
  | CallWrite _ :: _ => Some StatusOK
  end.

Fixpoint sentBodies (calls : list call) : list body :=
  match calls with
  | [] => []
  | CallWriteHeader _ :: rest => sentBodies rest
  | CallWrite b :: rest => b :: sentBodies rest
  end.

(** The arguments of the [WriteHeader] calls, oldest first. *)
Fixpoint writeHeaderCalls (calls : list call) : list Z :=
  match calls with
  | [] => []
  | CallWriteHeader c :: rest => c :: writeHeaderCalls rest
  | CallWrite _ :: rest => writeHeaderCalls rest
  end.

(** *** metricsResponseWriter (middleware.go) *)

Record metricsResponseWriter (W : Type) : Type := {
  inner : W;                    (* the embedded http.ResponseWriter *)
  statusCode : Z;
  headerWritten : bool
}.
Arguments inner {W} _.
Arguments statusCode {W} _.
Arguments headerWritten {W} _.

Definition newMetricsResponseWriter {W : Type} (w : W)
    : metricsResponseWriter W :=
  {| inner := w; statusCode := StatusOK; headerWritten := false |}.

Section MetricsWriter.
Context {W : Type} `{!ResponseWriter W}.

Definition mw_WriteHeader (c : Z) (mw : metricsResponseWriter W)
    : metricsResponseWriter W :=
  {| inner := WriteHeader c (inner mw);
     statusCode := c;
     headerWritten := headerWritten mw |}.

Definition mw_Write (b : body) (mw : metricsResponseWriter W)
    : metricsResponseWriter W :=
  if headerWritten mw then
    {| inner := Write b (inner mw);
       statusCode := statusCode mw;
       headerWritten := true |}
  else
    {| inner := Write b (WriteHeader StatusOK (inner mw));
       statusCode := statusCode mw;
       headerWritten := true |}.

Definition mw_Unwrap (mw : metricsResponseWriter W) : W := inner mw.

(** [Header] is not overridden: the embedded writer's method is
    promoted. *)
#[export] Instance metrics_ResponseWriter
    : ResponseWriter (metricsResponseWriter W) := {|
  Header mw := Header (inner mw);
  updHeader f mw :=
    {| inner := updHeader f (inner mw);
       statusCode := statusCode mw;
       headerWritten := headerWritten mw |};
  WriteHeader := mw_WriteHeader;
  Write := mw_Write
|}.
End MetricsWriter.

(** ** Time *)

Definition Microsecond : Z := 1000.
Definition Second : Z := 1000000000.
Definition Minute : Z := 60 * Second.

Definition Duration_Microseconds (d : Z) : Z := Z.quot d Microsecond.

(** ** The token bucket *)

(** Modelled from the spec: the limiter is golang.org/x/time/rate, a
    dependency that is not among the sources.  Section 4.3 of the
    specification describes it: a bucket of capacity burst, refilled
    lazily at the configured rate from the time elapsed since the last
    refill; a request is allowed when at least one token is available,
    and then consumes one.  Tokens are counted in billionths, so that
    a rate of [limit] tokens per second adds [limit] units per
    nanosecond. *)
Module rate.

Record Limiter : Type := {
  limit : Z;          (* tokens per second *)
  burst : Z;          (* capacity, in tokens *)
  tokens : Z;         (* current tokens, in billionths of a token *)
  last : Z            (* time of the last refill *)
}.

Definition oneToken : Z := Second.

Definition NewLimiter (r b : Z) : Limiter :=
  {| limit := r; burst := b; tokens := b * oneToken; last := 0 |}.

Definition refill (now : Z) (l : Limiter) : Limiter :=
  {| limit := limit l; burst := burst l;
     tokens := Z.min (burst l * oneToken)
                     (tokens l + Z.max 0 (now - last l) * limit l);
     last := Z.max (last l) now |}.

Definition Allow (now : Z) (l : Limiter) : bool * Limiter :=
  let l1 := refill now l in
  if oneToken <=? tokens l1 then
    (true, {| limit := limit l1; burst := burst l1;
              tokens := tokens l1 - oneToken; last := last l1 |})
  else (false, l1).

End rate.

(** ** Application state *)

(** An entry of the [clients] map of [rateLimit]. *)
Record client : Type := {
  limiter : rate.Limiter;
  lastSeen : Z
}.

(** What the pipeline reads and changes while it serves a request: the
    clock ([time.Now]), the [clients] map that [rateLimit] closes over,
    the expvar counters that [metrics] closes over, and the errors
    handed to the logger by [serverErrorResponse]. *)
Record appState : Type := {
  clock : Z;
  clients : gmap string client;
  vars : expvars;
  errorLog : list error
}.

Definition setClients (cs : gmap string client) (st : appState) : appState :=
  {| clock := clock st; clients := cs; vars := vars st;
     errorLog := errorLog st |}.

Definition setVars (v : expvars) (st : appState) : appState :=
  {| clock := clock st; clients := clients st; vars := v;
     errorLog := errorLog st |}.

Definition logError (e : error) (st : appState) : appState :=
  {| clock := clock st; clients := clients st; vars := vars st;
     errorLog := (errorLog st ++ [e])%list |}.

(** expvar: [Int.Add] and [Map.Add]. *)
Definition expvar_Map_Add (key : string) (delta : Z) (m : gmap string Z)
    : gmap string Z :=
  <[key := default 0 (m !! key) + delta]> m.

Definition addRequestsReceived (v : expvars) : expvars :=
  {| total_requests_received := total_requests_received v + 1;
     total_responses_sent := total_responses_sent v;
     total_responses_sent_by_status := total_responses_sent_by_status v;
     total_processing_time_micros := total_processing_time_micros v |}.

Definition addResponseSent (status : Z) (micros : Z) (v : expvars) : expvars :=
  {| total_requests_received := total_requests_received v;
     total_responses_sent := total_responses_sent v + 1;
     total_responses_sent_by_status :=
       expvar_Map_Add (strconv_Itoa status) 1
                      (total_responses_sent_by_status v);
     total_processing_time_micros :=
       total_processing_time_micros v + micros |}.

(** ** Handlers *)

(** How a call of [ServeHTTP] ends. *)
Inductive outcome : Type :=
| Returned
| Panicked (v : string).

(** [http.Handler]: it works on any [ResponseWriter], and leaves the
    writer and the application state as it changed them. *)
Definition Handler : Type :=
  ∀ (W : Type), ResponseWriter W →
    W → Request → appState → outcome * W * appState.

(** Modelled from the spec: the response helpers of cmd/api/errors.go are
    not among the sources.  By Section 7 of the specification a rejected
    request receives the status of its category and a structured body
    naming the category; a system fault also goes to the error-reporting
    channel. *)
Definition errorResponse (c : ErrorCategory) : Handler :=
  fun W _ w r st =>
    (Returned, Write (ErrorBody c) (WriteHeader (statusOf c) w), st).

Definition invalidAuthenticationTokenResponse : Handler :=
  errorResponse InvalidCredentialFormat.
Definition authenticationRequiredResponse : Handler :=
  errorResponse AuthenticationRequired.
Definition inactiveAccountResponse : Handler :=
  errorResponse AccountInactive.
Definition notPermittedResponse : Handler :=
  errorResponse PermissionDenied.
Definition rateLimitExceededResponse : Handler :=
  errorResponse RateLimitExceeded.

Definition serverErrorResponse (err : error) : Handler :=
  fun W _ w r st => errorResponse SystemFault W _ w r (logError err st).

(** [expvar.Handler()]: the standard library's handler, which writes
    every published variable. *)
Definition expvar_Handler : Handler :=
  fun W _ w r st => (Returned, Write (VarsBody (vars st)) w, st).

(** ** The router *)

(** The routing table as [routes] fills it.  julienschmidt/httprouter is
    a dependency: of its behaviour the model keeps the lookup of a
    registered method and path, where a pattern segment [:name] matches
    any non-empty path segment and the matched parameters are stored in
    the request context.  Whatever it does for a request that matches no
    registered route ([NotFound], [MethodNotAllowed], redirects) is the
    [miss] handler. *)
Record route : Type := {
  routeMethod : string;
  routePattern : string;
  routeHandler : Handler
}.

Fixpoint matchSegments (pat path : list string)
    : option (list (string * string)) :=
  match pat, path with
  | [], [] => Some []
  | p :: pat', s :: path' =>
      match p with
      | String ":"%char name =>
          if String.eqb s "" then None
          else option_map (cons (name, s)) (matchSegments pat' path')
      | _ => if String.eqb p s then matchSegments pat' path' else None
      end
  | _, _ => None
  end.

Definition matchPath (pattern path : string)
    : option (list (string * string)) :=
  matchSegments (strings_Split pattern "/"%char) (strings_Split path "/"%char).

Fixpoint lookupRoute (table : list route) (method path : string)
    : option (Handler * list (string * string)) :=
  match table with
  | [] => None
  | rt :: rest =>
      if String.eqb (routeMethod rt) method then
        match matchPath (routePattern rt) path with
        | Some ps => Some (routeHandler rt, ps)
        | None => lookupRoute rest method path
        end
      else lookupRoute rest method path
  end.

Definition withParams (ps : list (string * string)) (r : Request) : Request :=
  match ps with
  | [] => r
  | _ => WithContext (context_WithValue routerParamsKey (ParamsValue ps) (Ctx r)) r
  end.

Definition router_ServeHTTP (table : list route) (miss : Handler) : Handler :=
  fun W _ w r st =>
    match lookupRoute table (Method r) (URLPath r) with
    | Some (h, ps) => h W _ w (withParams ps r) st
    | None => miss W _ w r st
    end.

(** ** The middleware (middleware.go) and the routes (routes.go) *)

(** [application]: the receiver of the methods below, together with the
    functions of packages outside the sources that they call:
    [data.ValidateTokenPlaintext], [app.models.Users.GetForToken],
    [app.models.Permissions.GetAllForUser], [realip.FromRequest], the
    handlers of the CRUD layer that [routes] wires in, and the router's
    answer to a request that matches no route. *)
Record application : Type := {
  appConfig : config;
  ValidateTokenPlaintext : validator.Validator → string → validator.Validator;
  Users_GetForToken : string → string → result User;
  Permissions_GetAllForUser : Z → result (gset string);
  realip_FromRequest : Request → string;
  healthcheckHandler : Handler;
  listMoviesHandler : Handler;
  createMovieHandler : Handler;
  showMovieHandler : Handler;
  updateMovieHandler : Handler;
  deleteMovieHandler : Handler;
  registerUserHandler : Handler;
  activateUserHandler : Handler;
  createAuthenticationTokenHandler : Handler;
  routerMiss : Handler
}.

Definition recoverPanic (app : application) (next : Handler) : Handler :=
  fun W _ w r st =>
    match next W _ w r st with
    | (Returned, w', st') => (Returned, w', st')
    | (Panicked v, w', st') =>
        serverErrorResponse (ErrMsg v) W _
          (updHeader (HttpHeader.Set_ "Connection" "close") w') r st'
    end.

(** The sweep that the goroutine started by [rateLimit] runs once a
    minute. *)
Definition sweepClients (now : Z) (cs : gmap string client)
    : gmap string client :=
  filter (λ kv, ¬ (3 * Minute < now - lastSeen kv.2)) cs.

Definition rateLimit (app : application) (next : Handler) : Handler :=
  fun W _ w r st =>
    if limiter_enabled (appConfig app) then
      let ip := realip_FromRequest app r in
      (* if _, found := clients[ip]; !found { clients[ip] = &client{...} } *)
      let cs :=
        match clients st !! ip with
        | Some _ => clients st
        | None =>
            <[ip := {| limiter := rate.NewLimiter (limiter_rps (appConfig app))
                                    (limiter_burst (appConfig app));
                       lastSeen := 0 |}]> (clients st)
        end in
      (* clients[ip].lastSeen = time.Now() *)
      let cs :=
        alter (λ c, {| limiter := limiter c; lastSeen := clock st |}) ip cs in
      (* clients[ip].limiter.Allow(), which changes the limiter in place *)
      match cs !! ip with
      | None => (Panicked "nil pointer dereference", w, st)
      | Some c =>
          let '(ok, l) := rate.Allow (clock st) (limiter c) in
          let cs := <[ip := {| limiter := l; lastSeen := lastSeen c |}]> cs in
          if negb ok then rateLimitExceededResponse W _ w r (setClients cs st)
          else next W _ w r (setClients cs st)
      end
    else next W _ w r st.

Definition authenticate (app : application) (next : Handler) : Handler :=
  fun W _ w r st =>
    let w := updHeader (HttpHeader.Add "Vary" "Authorization") w in
    let authorizationHeader := HttpHeader.Get "Authorization" (ReqHeader r) in
    if String.eqb authorizationHeader "" then
      next W _ w (contextSetUser r AnonymousUser) st
    else
      match strings_Split authorizationHeader space with
      | [scheme; token] =>
          if negb (String.eqb scheme "Bearer") then
            invalidAuthenticationTokenResponse W _ w r st
          else
            let v := ValidateTokenPlaintext app validator.New token in
            if negb (validator.Valid v) then
              invalidAuthenticationTokenResponse W _ w r st
            else
              match Users_GetForToken app ScopeAuthentication token with
              | Err err =>
                  if errors_Is err ErrRecordNotFound then
                    invalidAuthenticationTokenResponse W _ w r st
                  else serverErrorResponse err W _ w r st
              | Ok user => next W _ w (contextSetUser r user) st
              end
      | _ => invalidAuthenticationTokenResponse W _ w r st
      end.

Definition requireAuthenticatedUser (app : application) (next : Handler) : Handler :=
  fun W _ w r st =>
    match contextGetUser r with
    | inr v => (Panicked v, w, st)
    | inl user =>
        if IsAnonymous user then authenticationRequiredResponse W _ w r st
        else next W _ w r st
    end.

Definition requireActivatedUser (app : application) (next : Handler) : Handler :=
  requireAuthenticatedUser app
    (fun W _ w r st =>
       match contextGetUser r with
       | inr v => (Panicked v, w, st)
       | inl user =>
           if negb (Activated user) then inactiveAccountResponse W _ w r st
           else next W _ w r st
       end).

Definition requirePermission (app : application) (code : string) (next : Handler) : Handler :=
  let fn : Handler :=
    fun W _ w r st =>
      match contextGetUser r with
      | inr v => (Panicked v, w, st)
      | inl user =>
          match Permissions_GetAllForUser app (ID user) with
          | Err err => serverErrorResponse err W _ w r st
          | Ok permissions =>
              if negb (Permissions_Include code permissions) then
                notPermittedResponse W _ w r st
              else next W _ w r st
          end
      end in
  requireActivatedUser app fn.

Definition isPreflight (r : Request) : bool :=
  String.eqb (Method r) MethodOptions
  && negb (String.eqb
             (HttpHeader.Get "Access-Control-Request-Method" (ReqHeader r)) "").

(** The loop over [app.config.cors.trustedOrigins].  The flag is true
    when the handler returned from inside the loop (the pre-flight
    answer), false when the loop ended or was left by [break]. *)
Fixpoint corsOrigins {W : Type} `{!ResponseWriter W} (r : Request)
    (origin : string) (trusted : list string) (w : W) : W * bool :=
  match trusted with
  | [] => (w, false)
  | o :: rest =>
      if String.eqb origin o then
        let w := updHeader (HttpHeader.Set_ "Access-Control-Allow-Origin" origin) w in
        if isPreflight r then
          let w := updHeader (HttpHeader.Set_ "Access-Control-Allow-Methods"
                                "OPTIONS, PUT, PATCH, DELETE") w in
          let w := updHeader (HttpHeader.Set_ "Access-Control-Allow-Headers"
                                "Authorization, Content-Type") w in
          (WriteHeader StatusOK w, true)
        else (w, false)
      else corsOrigins r origin rest w
  end.

Definition enableCORS (app : application) (next : Handler) : Handler :=
  fun W _ w r st =>
    let w := updHeader (HttpHeader.Add "Vary" "Origin") w in
    let w := updHeader (HttpHeader.Add "Vart" "Access-Control-Request-Method") w in
    let origin := HttpHeader.Get "Origin" (ReqHeader r) in
    if negb (String.eqb origin "") then
      match corsOrigins r origin (cors_trustedOrigins (appConfig app)) w with
      | (w', true) => (Returned, w', st)
      | (w', false) => next W _ w' r st
      end
    else next W _ w r st.

Definition metrics (app : application) (next : Handler) : Handler :=
  fun W _ w r st =>
    let start := clock st in
    let st := setVars (addRequestsReceived (vars st)) st in
    let mw := newMetricsResponseWriter w in
    match next (metricsResponseWriter W) _ mw r st with
    | (Returned, mw', st') =>
        let duration := Duration_Microseconds (clock st' - start) in
        (Returned, inner mw',
         setVars (addResponseSent (statusCode mw') duration (vars st')) st')
    | (Panicked v, mw', st') => (Panicked v, inner mw', st')
    end.

Definition routeTable (app : application) : list route :=
  [ {| routeMethod := "GET"; routePattern := "/v1/healthcheck";
       routeHandler := healthcheckHandler app |};
    {| routeMethod := "GET"; routePattern := "/v1/movies";
       routeHandler := requirePermission app PermissionRead (listMoviesHandler app) |};
    {| routeMethod := "POST"; routePattern := "/v1/movies";
       routeHandler := requirePermission app PermissionWrite (createMovieHandler app) |};
    {| routeMethod := "GET"; routePattern := "/v1/movies/:id";
       routeHandler := requirePermission app PermissionRead (showMovieHandler app) |};
    {| routeMethod := "PATCH"; routePattern := "/v1/movies/:id";
       routeHandler := requirePermission app PermissionWrite (updateMovieHandler app) |};
    {| routeMethod := "DELETE"; routePattern := "/v1/movies/:id";
       routeHandler := requirePermission app PermissionWrite (deleteMovieHandler app) |};
    {| routeMethod := "POST"; routePattern := "/v1/users";
       routeHandler := registerUserHandler app |};
    {| routeMethod := "PUT"; routePattern := "/v1/users/activated";
       routeHandler := activateUserHandler app |};
    {| routeMethod := "POST"; routePattern := "/v1/tokens/authentication";
       routeHandler := createAuthenticationTokenHandler app |};
    {| routeMethod := "GET"; routePattern := "/debug/vars";
       routeHandler := expvar_Handler |} ].

Definition router (app : application) : Handler :=
  router_ServeHTTP (routeTable app) (routerMiss app).

Definition routes (app : application) : Handler :=
  metrics app
    (recoverPanic app
       (enableCORS app
          (rateLimit app
             (authenticate app (router app))))).


(** ** Handlers given by what they do to the writer *)

(** A call a handler makes on its [ResponseWriter]. *)
Inductive writerOp : Type :=
| OpHeaderAdd (key value : string)
| OpHeaderSet (key value : string)
| OpWriteHeader (statusCode : Z)
| OpWrite (b : body).

Definition runOp {W : Type} `{!ResponseWriter W} (w : W) (op : writerOp) : W :=
  match op with
  | OpHeaderAdd k v => updHeader (HttpHeader.Add k v) w
  | OpHeaderSet k v => updHeader (HttpHeader.Set_ k v) w
  | OpWriteHeader c => WriteHeader c w
  | OpWrite b => Write b w
  end.

Definition runOps {W : Type} `{!ResponseWriter W} (ops : list writerOp) (w : W)
    : W :=
  fold_left runOp ops w.

(** The arguments of the handler's own [WriteHeader] calls, oldest first. *)
Fixpoint explicitStatuses (ops : list writerOp) : list Z :=
  match ops with
  | [] => []
  | OpWriteHeader c :: rest => c :: explicitStatuses rest
  | _ :: rest => explicitStatuses rest
  end.

Fixpoint writesBody (ops : list writerOp) : bool :=
  match ops with
  | [] => false
  | OpWrite _ :: _ => true
  | _ :: rest => writesBody rest
  end.

(** A handler that, from the request and the state, decides the calls
    it makes on the writer and the state it leaves, and returns. *)
Definition scriptHandler
    (script : Request → appState → list writerOp * appState) : Handler :=
  fun W _ w r st =>
    let '(ops, st') := script r st in
    (Returned, runOps ops w, st').

(** ** The server's life cycle (server.go) *)

(** What the outside world does during one run of [serve]: whether
    [ListenAndServe] fails on its own (a bind error, say), which signal
    reaches the [quit] channel, how long the requests in flight at that
    moment need to complete, and what closing the listeners reports. *)
Record run : Type := {
  listenError : option error;
  signal : option string;
  drain : Z;
  closeError : option error
}.

(** [http.Server.Shutdown] of the standard library: it closes the
    listeners, then waits for the connections to become idle; when the
    context's deadline comes first it returns the context's error. *)
Definition Server_Shutdown (timeout : Z) (rn : run) : option error :=
  if drain rn <=? timeout then closeError rn else Some DeadlineExceeded.

(** [ListenAndServe] returns its own failure, or [ErrServerClosed] once
    [Shutdown] has been called; otherwise it keeps serving. *)
Definition Server_ListenAndServe (rn : run) : option error :=
  match listenError rn with
  | Some e => Some e
  | None =>
      match signal rn with
      | Some _ => Some ErrServerClosed
      | None => None
      end
  end.

Inductive serveResult : Type :=
| Blocks                              (* [serve] does not return *)
| Returns (err : option error).

Definition isErrServerClosed (e : error) : bool :=
  match e with
  | ErrServerClosed => true
  | _ => false
  end.

Definition serve (cfg : config) (rn : run) : serveResult :=
  (* the goroutine: wait for a signal, then shut down with a deadline *)
  let shutdownError : option (option error) :=
    match signal rn with
    | Some _ => Some (Server_Shutdown (30 * Second) rn)
    | None => None
    end in
  match Server_ListenAndServe rn with
  | None => Blocks
  | Some err =>
      if negb (isErrServerClosed err) then Returns (Some err)
      else
        match shutdownError with
        | None => Blocks
        | Some err => Returns err
        end
  end.

(** ** A concrete application, for evaluation *)

Module Sample.

Definition cfg : config :=
  {| port := 4000; env := "development";
     limiter_enabled := true; limiter_rps := 2; limiter_burst := 4;
     cors_trustedOrigins := ["https://allowed.example"];
     shutdownGracePeriod := 5 * Second |}.

(** A token check in the style of [data.ValidateTokenPlaintext]:
    the token must be given and 26 bytes long. *)
Definition validateToken (v : validator.Validator) (tok : string)
    : validator.Validator :=
  validator.Check (Nat.eqb (String.length tok) 26) "token"
    "must be 26 bytes long"
    (validator.Check (negb (String.eqb tok "")) "token" "must be provided" v).

Definition alice : User := {| ID := 1; Activated := true; IsAnonymous := false |}.
Definition bob : User := {| ID := 2; Activated := false; IsAnonymous := false |}.

Definition aliceToken : string := "ALICEALICEALICEALICEALICE1".
Definition bobToken : string := "BOBBOBBOBBOBBOBBOBBOBBOB22".
Definition faultToken : string := "FAULTFAULTFAULTFAULTFAULT3".
Definition unknownToken : string := "NOBODYNOBODYNOBODYNOBODY44".

Definition getForToken (scope tok : string) : result User :=
  if negb (String.eqb scope ScopeAuthentication) then Err ErrRecordNotFound
  else if String.eqb tok aliceToken then Ok alice
  else if String.eqb tok bobToken then Ok bob
  else if String.eqb tok faultToken then
    Err (Wrapped "query" (ErrMsg "connection refused"))
  else Err ErrRecordNotFound.

Definition getAllForUser (id : Z) : result (gset string) :=
  if id =? 1 then Ok {[ PermissionRead ]}
  else if id =? 2 then Ok {[ PermissionRead; PermissionWrite ]}
  else Err (ErrMsg "connection refused").

Definition realip (r : Request) : string :=
  HttpHeader.Get "X-Real-Ip" (ReqHeader r).

Definition reply (status : Z) (text : string) : Handler :=
  fun W _ w r st => (Returned, Write (Bytes text) (WriteHeader status w), st).

Definition app : application :=
  {| appConfig := cfg;
     ValidateTokenPlaintext := validateToken;
     Users_GetForToken := getForToken;
     Permissions_GetAllForUser := getAllForUser;
     realip_FromRequest := realip;
     healthcheckHandler := reply 200 "available";
     listMoviesHandler := reply 200 "movies";
     createMovieHandler := reply 201 "created";
     showMovieHandler := reply 200 "movie";
     updateMovieHandler := reply 200 "updated";
     deleteMovieHandler := reply 200 "deleted";
     registerUserHandler := reply 202 "registered";
     activateUserHandler := reply 200 "activated";
     createAuthenticationTokenHandler := reply 201 "token";
     routerMiss := reply 404 "not found" |}.

Definition request (method path : string) (hdr : list (string * string))
    : Request :=
  {| Method := method; URLPath := path;
     ReqHeader := fold_left (fun h kv => HttpHeader.Add kv.1 kv.2 h) hdr ∅;
     Ctx := [] |}.

Definition noVars : expvars :=
  {| total_requests_received := 0; total_responses_sent := 0;
     total_responses_sent_by_status := ∅;
     total_processing_time_micros := 0 |}.

Definition st0 : appState :=
  {| clock := 100 * Second; clients := ∅; vars := noVars; errorLog := [] |}.

Definition bearer (tok : string) : list (string * string) :=
  [("X-Real-Ip", "10.0.0.1"); ("Authorization", ("Bearer " ++ tok)%string)].

(** POST /v1/movies as alice, who may only read. *)
Definition aliceCreates : Request := request "POST" "/v1/movies" (bearer aliceToken).

(** The same request with a token whose lookup fails in the database. *)
Definition faultCreates : Request := request "POST" "/v1/movies" (bearer faultToken).

(** GET /debug/vars as bob, whose account is not activated. *)
Definition bobReadsVars : Request := request "GET" "/debug/vars" (bearer bobToken).

(** A pre-flight request from the trusted origin. *)
Definition preflight : Request :=
  request "OPTIONS" "/v1/movies"
    [("Origin", "https://allowed.example");
     ("Access-Control-Request-Method", "PUT")].

(** A client whose bucket is empty and was refilled at 100 s. *)
Definition drained : client :=
  {| limiter := {| rate.limit := 2; rate.burst := 4;
                   rate.tokens := 0; rate.last := 100 * Second |};
     lastSeen := 90 * Second |}.

Definition stDrained : appState := setClients {[ "10.0.0.1" := drained ]} st0.

(** A handler in the style of the JSON helpers: it sets a header, calls
    [WriteHeader 201] and writes the body. *)
Definition created (r : Request) (st : appState) : list writerOp * appState :=
  ([OpHeaderSet "Content-Type" "application/json"; OpWriteHeader 201;
    OpWrite (Bytes "created")], st).

(** A run in which SIGTERM arrives and the requests in flight need the
    given time. *)
Definition terminated (d : Z) : run :=
  {| listenError := None; signal := Some "terminated"; drain := d;
     closeError := None |}.

(** POST /v1/movies without credentials. *)
Definition anonCreates : Request :=
  request "POST" "/v1/movies" [("X-Real-Ip", "10.0.0.1")].

(** GET /debug/vars without credentials and without an origin. *)
Definition anonReadsVars : Request := request "GET" "/debug/vars" [].

(** DELETE /v1/movies/42 as alice. *)
Definition aliceDeletes : Request :=
  request "DELETE" "/v1/movies/42" (bearer aliceToken).

(** A handler that panics before it writes anything. *)
Definition panics : Handler :=
  fun W _ w r st => (Panicked "index out of range", w, st).

(** A user store that also knows activation tokens. *)
Definition getForToken2 (scope tok : string) : result User :=
  if String.eqb scope "activation" then Ok bob else getForToken scope tok.

Definition withStore (store : string → string → result User)
    (limiterOn : bool) : application :=
  {| appConfig :=
       {| port := 4000; env := "development";
          limiter_enabled := limiterOn; limiter_rps := 2; limiter_burst := 4;
          cors_trustedOrigins := ["https://allowed.example"];
          shutdownGracePeriod := 5 * Second |};
     ValidateTokenPlaintext := validateToken;
     Users_GetForToken := store;
     Permissions_GetAllForUser := getAllForUser;
     realip_FromRequest := realip;
     healthcheckHandler := reply 200 "available";
     listMoviesHandler := reply 200 "movies";
     createMovieHandler := reply 201 "created";
     showMovieHandler := reply 200 "movie";
     updateMovieHandler := reply 200 "updated";
     deleteMovieHandler := reply 200 "deleted";
     registerUserHandler := reply 202 "registered";
     activateUserHandler := reply 200 "activated";
     createAuthenticationTokenHandler := reply 201 "token";
     routerMiss := reply 404 "not found" |}.

(** A handler that starts streaming its answer and then reports a
    failure: [Write], then [WriteHeader 500]. *)
Definition writesThenFails (r : Request) (st : appState)
    : list writerOp * appState :=
  ([OpWrite (Bytes "partial"); OpWriteHeader 500], st).

(** A handler that calls [WriteHeader] twice, with 201 and with 500. *)
Definition twoStatuses (r : Request) (st : appState)
    : list writerOp * appState :=
  ([OpWriteHeader 201; OpWriteHeader 500; OpWrite (Bytes "created")], st).

(** A handler that answers with status 200 and panics afterwards. *)
Definition answersThenPanics : Handler :=
  fun W _ w r st =>
    (Panicked "nil map", Write (Bytes "available") (WriteHeader 200 w), st).

(** The application whose health check answers and then panics. *)
Definition crashing : application :=
  {| appConfig := cfg;
     ValidateTokenPlaintext := validateToken;
     Users_GetForToken := getForToken;
     Permissions_GetAllForUser := getAllForUser;
     realip_FromRequest := realip;
     healthcheckHandler := answersThenPanics;
     listMoviesHandler := reply 200 "movies";
     createMovieHandler := reply 201 "created";
     showMovieHandler := reply 200 "movie";
     updateMovieHandler := reply 200 "updated";
     deleteMovieHandler := reply 200 "deleted";
     registerUserHandler := reply 202 "registered";
     activateUserHandler := reply 200 "activated";
     createAuthenticationTokenHandler := reply 201 "token";
     routerMiss := reply 404 "not found" |}.

(** GET /v1/healthcheck without credentials. *)
Definition healthcheck : Request :=
  request "GET" "/v1/healthcheck" [("X-Real-Ip", "10.0.0.1")].

(** The state at a later time. *)
Definition atTime (t : Z) (st : appState) : appState :=
  {| clock := t; clients := clients st; vars := vars st;
     errorLog := errorLog st |}.

(** The state after the client 10.0.0.1 has sent the given number of
    requests through [rateLimit], all at the time of the state. *)
Fixpoint afterRequests (n : nat) (st : appState) : appState :=
  match n with
  | O => st
  | S n' =>
      (rateLimit app (reply 200 "ok") recorder _ newRecorder healthcheck
         (afterRequests n' st)).2
  end.

End Sample.

(** ** Vocabulary of the statements *)

(** The value of the request's Authorization header; [Get] gives the
    empty string when the header is absent. *)
Definition authorizationOf (r : Request) : string :=
  HttpHeader.Get "Authorization" (ReqHeader r).

(** The exact two-token scheme: the word Bearer, one space, and a
    credential without a space in it. *)
Definition bearerShape (h tok : string) : Prop :=
  h = ("Bearer " ++ tok)%string ∧ contains space tok = false.

(** The credential passes the syntactic check. *)
Definition tokenValid (app : application) (tok : string) : bool :=
  validator.Valid (ValidateTokenPlaintext app validator.New tok).

(** The principal of a request: the anonymous sentinel when no
    Authorization header was sent, else the user the token store
    resolves a well-formed credential to. *)
Definition principalFor (app : application) (r : Request) (u : User) : Prop :=
  (authorizationOf r = "" ∧ u = AnonymousUser)
  ∨ (∃ tok, bearerShape (authorizationOf r) tok
            ∧ tokenValid app tok = true
            ∧ Users_GetForToken app ScopeAuthentication tok = Ok u).

(** What a middleware does with the handler it wraps, at every call:
    either its result does not depend on that handler (the request is
    answered by the middleware itself), or it calls the handler once, on
    a request related to its own by [P], and computes its result from
    the handler's. *)
Definition stageSpec (M : Handler → Handler) (P : Request → Request → Prop)
    : Prop :=
  ∀ (W : Type) (inst : ResponseWriter W) (w : W) (r : Request) (st : appState),
    (∃ res, ∀ next, M next W inst w r st = res)
    ∨ (∃ (W' : Type) (inst' : ResponseWriter W') (w' : W') (r' : Request)
         (st' : appState) (k : outcome * W' * appState → outcome * W * appState),
         P r r' ∧ ∀ next, M next W inst w r st = k (next W' inst' w' r' st')).

(** The handler never raises the panic of [contextGetUser]. *)
Definition neverMissesUser (h : Handler) : Prop :=
  ∀ (W : Type) (inst : ResponseWriter W) (w : W) (r : Request) (st : appState),
    (h W inst w r st).1.1 ≠ Panicked missingUser.

(** The handlers that [routes] takes from outside this package's
    middleware: the CRUD handlers and the router's answer to a miss. *)
Definition outsideHandlers (app : application) : list Handler :=
  [ healthcheckHandler app; listMoviesHandler app; createMovieHandler app;
    showMovieHandler app; updateMovieHandler app; deleteMovieHandler app;
    registerUserHandler app; activateUserHandler app;
    createAuthenticationTokenHandler app; routerMiss app ].

(** The handler's call only changes the header map. *)
Definition isHeaderOp (op : writerOp) : bool :=
  match op with
  | OpHeaderAdd _ _ | OpHeaderSet _ _ => true
  | _ => false
  end.

(** The status a handler's own calls stand for: that of its first
    [WriteHeader], or 200 when it writes a body before any. *)
Fixpoint handlerStatus (ops : list writerOp) : option Z :=
  match ops with
  | [] => None
  | OpWriteHeader c :: _ => Some c
  | OpWrite _ :: _ => Some StatusOK
  | _ :: rest => handlerStatus rest
  end.

(** [strings.HasPrefix] and [strings.Contains]. *)
Fixpoint strings_HasPrefix (s prefix : string) : bool :=
  match prefix, s with
  | EmptyString, _ => true
  | String a p, String b s' => Ascii.eqb a b && strings_HasPrefix s' p
  | String _ _, EmptyString => false
  end.

Fixpoint strings_Contains (s substr : string) : bool :=
  strings_HasPrefix s substr
  || match s with
     | EmptyString => false
     | String _ s' => strings_Contains s' substr
     end.

(** What every [ResponseWriter] of net/http satisfies: [Header] is the
    map that [updHeader] changes, and writing leaves it as it is. *)
Class ResponseWriterLaws (W : Type) `{!ResponseWriter W} : Prop := {
  Header_updHeader : ∀ f (w : W), Header (updHeader f w) = f (Header w);
  Header_WriteHeader : ∀ c (w : W), Header (WriteHeader c w) = Header w;
  Header_Write : ∀ b (w : W), Header (Write b w) = Header w
}.

(** The sum of the counters of an expvar map. *)
Definition sumCounters (m : gmap string Z) : Z :=
  map_fold (λ _ v acc, v + acc) 0 m.

(** The counters of [metrics] agree: every request received was
    answered, and every answer was counted under one status. *)
Definition countersAgree (v : expvars) : Prop :=
  total_requests_received v = total_responses_sent v
  ∧ sumCounters (total_responses_sent_by_status v) = total_responses_sent v.

(** The bodies a handler writes, oldest first. *)
Fixpoint writtenBodies (ops : list writerOp) : list body :=
  match ops with
  | [] => []
  | OpWrite b :: rest => b :: writtenBodies rest
  | _ :: rest => writtenBodies rest
  end.

(** A path segment that a pattern parameter matches: not empty and
    without a slash. *)
Definition isSegment (s : string) : Prop :=
  s ≠ "" ∧ contains "/"%char s = false.

(** A run of [Check] calls on one validator, in order. *)
Definition runChecks (checks : list (bool * string * string))
    (v : validator.Validator) : validator.Validator :=
  fold_left (λ v c, validator.Check c.1.1 c.1.2 c.2 v) checks v.

(** What the client gets is the same from the wrapped writer as from
    the server's own. *)
Definition sameResponse (mw : metricsResponseWriter recorder) (rw : recorder)
    : Prop :=
  recHeader (inner mw) = recHeader rw
  ∧ sentStatus (recCalls (inner mw)) = sentStatus (recCalls rw)
  ∧ sentBodies (recCalls (inner mw)) = sentBodies (recCalls rw)
  ∧ (recCalls (inner mw) = [] ↔ recCalls rw = []).

(** * Properties *)

(** ** strings.Split *)

Lemma strings_Split_cons (s : string) (sep : ascii) :
  ∃ hd tl, strings_Split s sep = hd :: tl.
Proof.
  induction s as [|c rest IH]; simpl.
  - eauto.
  - destruct (Ascii.eqb c sep); [eauto|].
    destruct IH as (hd & tl & ->). eauto.
Qed.

Lemma strings_Split_step (c : ascii) (rest : string) (sep : ascii) :
  strings_Split (String c rest) sep =
    if Ascii.eqb c sep then EmptyString :: strings_Split rest sep
    else match strings_Split rest sep with
         | hd :: tl => String c hd :: tl
         | [] => [String c EmptyString]
         end.
Proof. reflexivity. Qed.

(** One part: the separator does not occur. *)
Lemma strings_Split_one (s a : string) (sep : ascii) :
  strings_Split s sep = [a] ↔ s = a ∧ contains sep a = false.
Proof.
  revert a. induction s as [|c rest IH]; intros a.
  - simpl. split.
    + intros [= <-]. auto.
    + intros [<- _]. reflexivity.
  - rewrite strings_Split_step.
    destruct (Ascii.eqb c sep) eqn:Hc.
    + split.
      * intros [= <- Hrest].
        destruct (strings_Split_cons rest sep) as (hd & tl & Heq).
        congruence.
      * intros [<- Hno]. simpl in Hno. rewrite Hc in Hno. discriminate.
    + destruct (strings_Split_cons rest sep) as (hd & tl & Heq).
      rewrite Heq. split.
      * intros [= <- ->]. apply IH in Heq as [-> Hno].
        split; [reflexivity|]. simpl. rewrite Hc. exact Hno.
      * intros [<- Hno]. simpl in Hno. rewrite Hc in Hno. simpl in Hno.
        assert (strings_Split rest sep = [rest]) as Hr by (apply IH; auto).
        rewrite Heq in Hr. injection Hr as -> ->. reflexivity.
Qed.

(** Several parts: the first one ends at the first separator. *)
Lemma strings_Split_more (s a b : string) (l : list string) (sep : ascii) :
  strings_Split s sep = a :: b :: l ↔
  ∃ rest, s = (a ++ String sep rest)%string ∧ contains sep a = false
          ∧ strings_Split rest sep = b :: l.
Proof.
  revert a. induction s as [|c rest IH]; intros a.
  - simpl. split; [discriminate|].
    intros (r & Hs & _). destruct a; discriminate.
  - rewrite strings_Split_step.
    destruct (Ascii.eqb c sep) eqn:Hc.
    + apply Ascii.eqb_eq in Hc as ->. split.
      * intros [= <- Hrest]. exists rest. auto.
      * intros (r & Hs & Hno & Hr). destruct a as [|d a'].
        -- simpl in Hs. injection Hs as ->. rewrite Hr. reflexivity.
        -- simpl in Hs. injection Hs as <- _. simpl in Hno.
           rewrite Ascii.eqb_refl in Hno. discriminate.
    + destruct (strings_Split_cons rest sep) as (hd & tl & Heq).
      rewrite Heq. split.
      * intros [= <- ->]. apply IH in Heq as (r & -> & Hno & Hr).
        exists r. simpl. rewrite Hc. auto.
      * intros (r & Hs & Hno & Hr). destruct a as [|d a'].
        -- simpl in Hs. injection Hs as -> _.
           rewrite Ascii.eqb_refl in Hc. discriminate.
        -- simpl in Hs. injection Hs as <- ->. simpl in Hno.
           rewrite Hc in Hno. simpl in Hno.
           assert (strings_Split (a' ++ String sep r)%string sep = a' :: b :: l)
             as Hr' by (apply IH; eauto).
           rewrite Heq in Hr'. injection Hr' as -> ->. reflexivity.
Qed.

Lemma strings_Split_two (s a b : string) (sep : ascii) :
  strings_Split s sep = [a; b] ↔
  s = (a ++ String sep b)%string ∧ contains sep a = false
  ∧ contains sep b = false.
Proof.
  rewrite strings_Split_more. split.
  - intros (r & -> & Ha & Hr). apply strings_Split_one in Hr as [-> Hb]. auto.
  - intros (-> & Ha & Hb). exists b. repeat split; auto.
    apply strings_Split_one. auto.
Qed.

(** ** authenticate *)

Lemma bearerShape_Split (h tok : string) :
  bearerShape h tok ↔ strings_Split h space = ["Bearer"; tok].
Proof.
  unfold bearerShape. rewrite strings_Split_two. split.
  - intros [-> Hno]. repeat split; auto.
  - intros (-> & _ & Hno). split; auto.
Qed.

Lemma bearerShape_nonempty (h tok : string) : bearerShape h tok → h ≠ "".
Proof. intros [-> _]. discriminate. Qed.

Lemma eqb_empty_false (h : string) : h ≠ "" → String.eqb h "" = false.
Proof. intros H. apply String.eqb_neq. exact H. Qed.

(** A header of another shape is answered before any lookup. *)
Lemma authenticate_malformed (app : application) (next : Handler)
    (W : Type) `{!ResponseWriter W} (w : W) (r : Request) (st : appState) :
  authorizationOf r ≠ "" →
  (∀ tok, ¬ bearerShape (authorizationOf r) tok) →
  authenticate app next W _ w r st =
    invalidAuthenticationTokenResponse W _
      (updHeader (HttpHeader.Add "Vary" "Authorization") w) r st.
Proof.
  intros Hne Hshape. unfold authenticate. fold (authorizationOf r).
  rewrite (eqb_empty_false _ Hne).
  destruct (strings_Split (authorizationOf r) space) as [|scheme [|tok [|x l]]] eqn:Hs;
    try reflexivity.
  destruct (String.eqb scheme "Bearer") eqn:Hb; [|reflexivity].
  apply String.eqb_eq in Hb as ->.
  exfalso. apply (Hshape tok). apply bearerShape_Split. exact Hs.
Qed.

(** What [authenticate] does with a header of the right shape. *)
Lemma authenticate_bearer (app : application) (next : Handler)
    (W : Type) `{!ResponseWriter W} (w : W) (r : Request) (st : appState)
    (tok : string) :
  bearerShape (authorizationOf r) tok →
  authenticate app next W _ w r st =
    let w1 := updHeader (HttpHeader.Add "Vary" "Authorization") w in
    if negb (tokenValid app tok) then
      invalidAuthenticationTokenResponse W _ w1 r st
    else
      match Users_GetForToken app ScopeAuthentication tok with
      | Err err =>
          if errors_Is err ErrRecordNotFound then
            invalidAuthenticationTokenResponse W _ w1 r st
          else serverErrorResponse err W _ w1 r st
      | Ok user => next W _ w1 (contextSetUser r user) st
      end.
Proof.
  intros Hshape. unfold authenticate. fold (authorizationOf r).
  rewrite (eqb_empty_false _ (bearerShape_nonempty _ _ Hshape)).
  apply bearerShape_Split in Hshape. rewrite Hshape.
  reflexivity.
Qed.

Lemma authenticate_absent (app : application) (next : Handler)
    (W : Type) `{!ResponseWriter W} (w : W) (r : Request) (st : appState) :
  authorizationOf r = "" →
  authenticate app next W _ w r st =
    next W _ (updHeader (HttpHeader.Add "Vary" "Authorization") w)
         (contextSetUser r AnonymousUser) st.
Proof.
  intros Habs. unfold authenticate. fold (authorizationOf r).
  rewrite Habs. reflexivity.
Qed.

Lemma logError_neq (e : error) (st : appState) : logError e st ≠ st.
Proof.
  intros H. apply (f_equal errorLog) in H. simpl in H.
  apply (f_equal (@length error)) in H. rewrite length_app in H.
  simpl in H. lia.
Qed.

(** C1.  A present Authorization header that is not of the exact shape
    Bearer-space-credential, a credential that fails the syntactic
    check, and a lookup that finds no record are all answered by the one
    response [invalidAuthenticationTokenResponse] on the same writer and
    state, so the three cannot be told apart; any other lookup failure is
    answered by [serverErrorResponse] with that error, which is not the
    invalid-credential response. *)
Theorem authenticate_failure_classes (app : application) (next : Handler)
    (W : Type) `{!ResponseWriter W} (w : W) (r : Request) (st : appState) :
  let h := authorizationOf r in
  let w1 := updHeader (HttpHeader.Add "Vary" "Authorization") w in
  (h ≠ "" → (∀ tok, ¬ bearerShape h tok) →
     authenticate app next W _ w r st =
       invalidAuthenticationTokenResponse W _ w1 r st)
  ∧ (∀ tok, bearerShape h tok → tokenValid app tok = false →
       authenticate app next W _ w r st =
         invalidAuthenticationTokenResponse W _ w1 r st)
  ∧ (∀ tok e, bearerShape h tok → tokenValid app tok = true →
       Users_GetForToken app ScopeAuthentication tok = Err e →
       errors_Is e ErrRecordNotFound = true →
       authenticate app next W _ w r st =
         invalidAuthenticationTokenResponse W _ w1 r st)
  ∧ (∀ tok e, bearerShape h tok → tokenValid app tok = true →
       Users_GetForToken app ScopeAuthentication tok = Err e →
       errors_Is e ErrRecordNotFound = false →
       authenticate app next W _ w r st = serverErrorResponse e W _ w1 r st
       ∧ authenticate app next W _ w r st ≠
           invalidAuthenticationTokenResponse W _ w1 r st).
Proof.
  intros h w1. subst h w1. split; [|split; [|split]].
  - apply authenticate_malformed.
  - intros tok Hs Hv. rewrite (authenticate_bearer _ _ _ _ _ _ tok Hs).
    cbv zeta. rewrite Hv. reflexivity.
  - intros tok e Hs Hv Hl Hnf. rewrite (authenticate_bearer _ _ _ _ _ _ tok Hs).
    cbv zeta. rewrite Hv, Hl, Hnf. reflexivity.
  - intros tok e Hs Hv Hl Hnf. rewrite (authenticate_bearer _ _ _ _ _ _ tok Hs).
    cbv zeta. rewrite Hv, Hl, Hnf. split; [reflexivity|].
    unfold serverErrorResponse, invalidAuthenticationTokenResponse, errorResponse.
    intros Heq. injection Heq as _ Hst. exact (logError_neq _ _ Hst).
Qed.

(** On the server's writer, a response of a category is sent with the
    status of the category and a body naming it, also through the
    wrapper of [metrics]. *)
Lemma errorResponse_sent (c : ErrorCategory) (rw : recorder) (r : Request)
    (st : appState) :
  recCalls rw = [] →
  let res := errorResponse c recorder _ rw r st in
  let res' := errorResponse c (metricsResponseWriter recorder) _
                (newMetricsResponseWriter rw) r st in
  sentStatus (recCalls res.1.2) = Some (statusOf c)
  ∧ sentBodies (recCalls res.1.2) = [ErrorBody c]
  ∧ sentStatus (recCalls (inner res'.1.2)) = Some (statusOf c)
  ∧ sentBodies (recCalls (inner res'.1.2)) = [ErrorBody c]
  ∧ statusCode res'.1.2 = statusOf c.
Proof. intros Hfresh. simpl. rewrite Hfresh. repeat split. Qed.

(** ** The request context *)

Lemma contextGetUser_contextSetUser (r : Request) (u : User) :
  contextGetUser (contextSetUser r u) = inl u.
Proof. reflexivity. Qed.

Lemma contextGetUser_withParams (ps : list (string * string)) (r : Request) :
  contextGetUser (withParams ps r) = contextGetUser r.
Proof. destruct ps; reflexivity. Qed.

(** ** The authorization checks on a request that carries a principal *)

Lemma requireAuthenticatedUser_user (app : application) (next : Handler)
    (W : Type) `{!ResponseWriter W} (w : W) (r : Request) (st : appState)
    (u : User) :
  contextGetUser r = inl u →
  requireAuthenticatedUser app next W _ w r st =
    if IsAnonymous u then authenticationRequiredResponse W _ w r st
    else next W _ w r st.
Proof. intros Hu. unfold requireAuthenticatedUser. rewrite Hu. reflexivity. Qed.

Lemma requireActivatedUser_user (app : application) (next : Handler)
    (W : Type) `{!ResponseWriter W} (w : W) (r : Request) (st : appState)
    (u : User) :
  contextGetUser r = inl u →
  requireActivatedUser app next W _ w r st =
    if IsAnonymous u then authenticationRequiredResponse W _ w r st
    else if negb (Activated u) then inactiveAccountResponse W _ w r st
    else next W _ w r st.
Proof.
  intros Hu. unfold requireActivatedUser.
  rewrite (requireAuthenticatedUser_user _ _ _ _ _ _ u Hu).
  rewrite Hu. reflexivity.
Qed.

Lemma requirePermission_user (app : application) (code : string)
    (next : Handler) (W : Type) `{!ResponseWriter W} (w : W) (r : Request)
    (st : appState) (u : User) :
  contextGetUser r = inl u →
  requirePermission app code next W _ w r st =
    if IsAnonymous u then authenticationRequiredResponse W _ w r st
    else if negb (Activated u) then inactiveAccountResponse W _ w r st
    else match Permissions_GetAllForUser app (ID u) with
         | Err err => serverErrorResponse err W _ w r st
         | Ok permissions =>
             if negb (Permissions_Include code permissions) then
               notPermittedResponse W _ w r st
             else next W _ w r st
         end.
Proof.
  intros Hu. unfold requirePermission.
  rewrite (requireActivatedUser_user _ _ _ _ _ _ u Hu).
  rewrite Hu. reflexivity.
Qed.

(** ** The stages of the pipeline *)

Lemma stageSpec_compose (M1 M2 : Handler → Handler)
    (P1 P2 : Request → Request → Prop) :
  stageSpec M1 P1 → stageSpec M2 P2 →
  stageSpec (λ next, M1 (M2 next)) (λ r r2, ∃ r1, P1 r r1 ∧ P2 r1 r2).
Proof.
  intros H1 H2 W inst w r st.
  destruct (H1 W inst w r st) as [[res Hres]|(W1 & i1 & w1 & r1 & st1 & k1 & HP1 & Hk1)].
  - left. exists res. intros next. apply Hres.
  - destruct (H2 W1 i1 w1 r1 st1)
      as [[res Hres]|(W2 & i2 & w2 & r2 & st2 & k2 & HP2 & Hk2)].
    + left. exists (k1 res). intros next. rewrite Hk1, Hres. reflexivity.
    + right. exists W2, i2, w2, r2, st2, (λ x, k1 (k2 x)).
      split; [eauto|]. intros next. rewrite Hk1, Hk2. reflexivity.
Qed.

Lemma metrics_stage (app : application) : stageSpec (metrics app) eq.
Proof.
  intros W inst w r st. right.
  exists (metricsResponseWriter W), _, (newMetricsResponseWriter w), r,
    (setVars (addRequestsReceived (vars st)) st),
    (λ res : outcome * metricsResponseWriter W * appState,
       match res with
       | (Returned, mw', st') =>
           (Returned, inner mw',
            setVars (addResponseSent (statusCode mw')
                       (Duration_Microseconds (clock st' - clock st))
                       (vars st')) st')
       | (Panicked v, mw', st') => (Panicked v, inner mw', st')
       end).
  split; [reflexivity|]. intros next. reflexivity.
Qed.

Lemma recoverPanic_stage (app : application) : stageSpec (recoverPanic app) eq.
Proof.
  intros W inst w r st. right.
  exists W, inst, w, r, st,
    (λ res : outcome * W * appState,
       match res with
       | (Returned, w', st') => (Returned, w', st')
       | (Panicked v, w', st') =>
           serverErrorResponse (ErrMsg v) W _
             (updHeader (HttpHeader.Set_ "Connection" "close") w') r st'
       end).
  split; [reflexivity|]. intros next. reflexivity.
Qed.

Lemma enableCORS_stage (app : application) : stageSpec (enableCORS app) eq.
Proof.
  intros W inst w r st. unfold enableCORS.
  destruct (negb (String.eqb (HttpHeader.Get "Origin" (ReqHeader r)) "")).
  - destruct (corsOrigins r _ _ _) as [w' [|]].
    + left. eexists. intros next. reflexivity.
    + right. exists W, inst, w', r, st, (λ x, x). split; [reflexivity|].
      intros next. reflexivity.
  - right. eexists W, inst, _, r, st, (λ x, x). split; [reflexivity|].
    intros next. reflexivity.
Qed.

Lemma rateLimit_stage (app : application) : stageSpec (rateLimit app) eq.
Proof.
  intros W inst w r st. unfold rateLimit.
  destruct (limiter_enabled (appConfig app)).
  - cbv zeta.
    match goal with
    | |- context [match ?m !! ?i with _ => _ end] =>
        destruct (m !! i) as [c|] eqn:Hc
    end.
    + destruct (rate.Allow _ _) as [[|] l]; simpl.
      * right. eexists W, inst, w, r, _, (λ x, x). split; [reflexivity|].
        intros next. reflexivity.
      * left. eexists. intros next. reflexivity.
    + left. eexists. intros next. reflexivity.
  - right. exists W, inst, w, r, st, (λ x, x). split; [reflexivity|].
    intros next. reflexivity.
Qed.

(** [authenticate] either answers the request itself, returning
    normally, or hands it on with the principal of the request attached. *)
Lemma authenticate_cases (app : application)
    (W : Type) `{!ResponseWriter W} (w : W) (r : Request) (st : appState) :
  (∃ res, res.1.1 = Returned ∧ ∀ next, authenticate app next W _ w r st = res)
  ∨ (∃ u, principalFor app r u
          ∧ ∀ next, authenticate app next W _ w r st =
              next W _ (updHeader (HttpHeader.Add "Vary" "Authorization") w)
                   (contextSetUser r u) st).
Proof.
  destruct (String.eqb (authorizationOf r) "") eqn:Habs.
  - apply String.eqb_eq in Habs. right. exists AnonymousUser. split.
    + left. auto.
    + intros next. apply authenticate_absent. exact Habs.
  - apply String.eqb_neq in Habs.
    destruct (strings_Split (authorizationOf r) space)
      as [|scheme [|tok [|x l]]] eqn:Hs.
    1,2,4: left; eexists; split; [|intros next; apply authenticate_malformed;
      [exact Habs| intros t Ht; apply bearerShape_Split in Ht; congruence]];
      reflexivity.
    destruct (String.eqb scheme "Bearer") eqn:Hb.
    + apply String.eqb_eq in Hb as ->. apply bearerShape_Split in Hs.
      destruct (tokenValid app tok) eqn:Hv.
      * destruct (Users_GetForToken app ScopeAuthentication tok) as [u|e] eqn:Hl.
        -- right. exists u. split; [right; eauto|].
           intros next. rewrite (authenticate_bearer _ _ _ _ _ _ tok Hs).
           cbv zeta. rewrite Hv, Hl. reflexivity.
        -- left.
           exists (if errors_Is e ErrRecordNotFound then
                     invalidAuthenticationTokenResponse W _
                       (updHeader (HttpHeader.Add "Vary" "Authorization") w) r st
                   else serverErrorResponse e W _
                       (updHeader (HttpHeader.Add "Vary" "Authorization") w) r st).
           split; [destruct (errors_Is e ErrRecordNotFound); reflexivity|].
           intros next. rewrite (authenticate_bearer _ _ _ _ _ _ tok Hs).
           cbv zeta. rewrite Hv, Hl. reflexivity.
      * left. eexists. split; [|intros next].
        2: { rewrite (authenticate_bearer _ _ _ _ _ _ tok Hs).
             cbv zeta. rewrite Hv. cbn [negb]. cbv iota. reflexivity. }
        reflexivity.
    + left. eexists. split; [|intros next; apply authenticate_malformed;
        [exact Habs|]].
      * reflexivity.
      * intros t Ht. apply bearerShape_Split in Ht. rewrite Hs in Ht.
        injection Ht as -> _. discriminate.
Qed.

Lemma authenticate_stage (app : application) :
  stageSpec (authenticate app)
    (λ r r', ∃ u, principalFor app r u ∧ r' = contextSetUser r u).
Proof.
  intros W inst w r st.
  destruct (authenticate_cases app W w r st) as [(res & _ & Hres)|(u & Hu & Hnext)].
  - left. eauto.
  - right. eexists W, inst, _, (contextSetUser r u), st, (λ x, x).
    split; [eauto|]. exact Hnext.
Qed.

(** ** The router under [authenticate] *)

Lemma lookupRoute_In (table : list route) (method path : string)
    (h : Handler) (ps : list (string * string)) :
  lookupRoute table method path = Some (h, ps) →
  ∃ rt, In rt table ∧ routeHandler rt = h.
Proof.
  induction table as [|rt rest IH]; simpl; [discriminate|].
  destruct (String.eqb (routeMethod rt) method).
  - destruct (matchPath (routePattern rt) path) as [ps'|].
    + intros [= <- <-]. eauto.
    + intros H. destruct (IH H) as (rt' & Hin & Heq). eauto.
  - intros H. destruct (IH H) as (rt' & Hin & Heq). eauto.
Qed.

Lemma errorResponse_returns (c : ErrorCategory)
    (W : Type) `{!ResponseWriter W} (w : W) (r : Request) (st : appState) :
  (errorResponse c W _ w r st).1.1 = Returned.
Proof. reflexivity. Qed.

(** On a request that carries a principal, a permission check raises the
    panic of [contextGetUser] only if the handler behind it does. *)
Lemma requirePermission_neverMissesUser (app : application) (code : string)
    (next : Handler) (W : Type) `{!ResponseWriter W} (w : W) (r : Request)
    (st : appState) (u : User) :
  contextGetUser r = inl u → neverMissesUser next →
  (requirePermission app code next W _ w r st).1.1 ≠ Panicked missingUser.
Proof.
  intros Hu Hnext. rewrite (requirePermission_user _ _ _ _ _ _ _ u Hu).
  destruct (IsAnonymous u); [discriminate|].
  destruct (negb (Activated u)); [discriminate|].
  destruct (Permissions_GetAllForUser app (ID u)) as [perms|e]; [|discriminate].
  destruct (negb (Permissions_Include code perms)); [discriminate|].
  apply Hnext.
Qed.

Lemma router_neverMissesUser (app : application)
    (W : Type) `{!ResponseWriter W} (w : W) (r : Request) (st : appState)
    (u : User) :
  Forall neverMissesUser (outsideHandlers app) →
  contextGetUser r = inl u →
  (router app W _ w r st).1.1 ≠ Panicked missingUser.
Proof.
  intros Hout Hu. unfold router, router_ServeHTTP.
  unfold outsideHandlers in Hout.
  repeat match goal with
         | H : Forall _ (_ :: _) |- _ =>
             let Hh := fresh "Hh" in
             apply Forall_cons_1 in H as [Hh H]
         end.
  destruct (lookupRoute (routeTable app) (Method r) (URLPath r))
    as [[h ps]|] eqn:Hl; [|apply Hh8].
  apply lookupRoute_In in Hl as (rt & Hin & <-).
  assert (contextGetUser (withParams ps r) = inl u) as Hu'
    by (rewrite contextGetUser_withParams; exact Hu).
  unfold routeTable in Hin. simpl in Hin.
  repeat (destruct Hin as [<-|Hin]; simpl;
          [first [ eapply requirePermission_neverMissesUser; eassumption
                 | match goal with H : neverMissesUser _ |- _ => apply H end
                 | discriminate ]|]).
  destruct Hin.
Qed.

Lemma pipeline_stage (app : application) :
  stageSpec
    (λ inner, metrics app (recoverPanic app (enableCORS app (rateLimit app
                (authenticate app inner)))))
    (λ r r', ∃ u, principalFor app r u ∧ r' = contextSetUser r u).
Proof.
  pose proof (stageSpec_compose _ _ _ _ (rateLimit_stage app)
                (authenticate_stage app)) as H1.
  pose proof (stageSpec_compose _ _ _ _ (enableCORS_stage app) H1) as H2.
  pose proof (stageSpec_compose _ _ _ _ (recoverPanic_stage app) H2) as H3.
  pose proof (stageSpec_compose _ _ _ _ (metrics_stage app) H3) as H4.
  intros W inst w r st.
  destruct (H4 W inst w r st)
    as [Hres|(W' & i' & w' & r' & st' & k & HP & Hk)]; [left; exact Hres|].
  right. exists W', i', w', r', st', k. split; [|exact Hk].
  destruct HP as (r1 & <- & r2 & <- & r3 & <- & r4 & <- & HP). exact HP.
Qed.

(** C2.  In the pipeline that [routes] assembles, the handler under
    [authenticate] (the router, and through it every authorization
    check) is either not called at all, or called on a request whose
    context holds exactly the principal of the request: the anonymous
    sentinel when no Authorization header was sent, else the user a
    valid credential resolves to.  [contextGetUser] finds that
    principal also after the router has stored its parameters, so the
    router under [authenticate], which is what [routes] assembles,
    never raises the missing-user panic unless a handler from outside
    does. *)
Theorem principal_attached (app : application) :
  stageSpec
    (λ inner, metrics app (recoverPanic app (enableCORS app (rateLimit app
                (authenticate app inner)))))
    (λ r r', ∃ u, principalFor app r u ∧ r' = contextSetUser r u
                  ∧ ∀ ps, contextGetUser (withParams ps r') = inl u)
  ∧ routes app =
      metrics app (recoverPanic app (enableCORS app (rateLimit app
        (authenticate app (router app)))))
  ∧ (Forall neverMissesUser (outsideHandlers app) →
     neverMissesUser (authenticate app (router app))).
Proof.
  split; [|split; [reflexivity|]].
  - intros W inst w r st.
    destruct (pipeline_stage app W inst w r st)
      as [Hres|(W' & i' & w' & r' & st' & k & (u & Hu & ->) & Hk)];
      [left; exact Hres|].
    right. exists W', i', w', (contextSetUser r u), st', k.
    split; [|exact Hk]. exists u. repeat split; [exact Hu|].
    intros ps. rewrite contextGetUser_withParams. reflexivity.
  - intros Hout W inst w r st.
    destruct (authenticate_cases app W w r st)
      as [(res & Hret & Hres)|(u & Hu & Hnext)].
    + rewrite Hres, Hret. discriminate.
    + rewrite Hnext. eapply router_neverMissesUser; [exact Hout|].
      apply contextGetUser_contextSetUser.
Qed.

(** ** Permission checks *)

Lemma errorResponse_recorder_inj (c1 c2 : ErrorCategory) (w : recorder)
    (r1 r2 : Request) (st1 st2 : appState) :
  errorResponse c1 recorder _ w r1 st1 = errorResponse c2 recorder _ w r2 st2 →
  c1 = c2.
Proof.
  unfold errorResponse. simpl. intros [= Hcalls _].
  apply app_inj_tail in Hcalls as [_ Hb]. congruence.
Qed.

Lemma lookupRoute_post_movies (app : application) :
  lookupRoute (routeTable app) "POST" "/v1/movies" =
    Some (requirePermission app PermissionWrite (createMovieHandler app), []).
Proof. reflexivity. Qed.

(** C3.  A request to POST /v1/movies from an authenticated, activated
    principal whose permission set lacks movies:write is answered with
    the PermissionDenied response.  The checks run in one order:
    an anonymous principal is answered AuthenticationRequired whatever
    else holds, then an inactive one AccountInactive, and only then the
    permission set is fetched and examined.  On the server's writer
    the PermissionDenied response differs from the other two. *)
Theorem movies_write_permission_denied (app : application)
    (W : Type) `{!ResponseWriter W} (w : W) (r : Request) (st : appState)
    (user : User) (perms : gset string) :
  Method r = "POST" → URLPath r = "/v1/movies" →
  principalFor app r user →
  IsAnonymous user = false → Activated user = true →
  Permissions_GetAllForUser app (ID user) = Ok perms →
  PermissionWrite ∉ perms →
  authenticate app (router app) W _ w r st =
    notPermittedResponse W _
      (updHeader (HttpHeader.Add "Vary" "Authorization") w)
      (contextSetUser r user) st
  ∧ (∀ code next (W' : Type) (inst : ResponseWriter W') (w' : W') r' st' u,
       contextGetUser r' = inl u →
       requirePermission app code next W' inst w' r' st' =
         if IsAnonymous u then authenticationRequiredResponse W' inst w' r' st'
         else if negb (Activated u) then inactiveAccountResponse W' inst w' r' st'
         else match Permissions_GetAllForUser app (ID u) with
              | Err err => serverErrorResponse err W' inst w' r' st'
              | Ok permissions =>
                  if negb (Permissions_Include code permissions) then
                    notPermittedResponse W' inst w' r' st'
                  else next W' inst w' r' st'
              end)
  ∧ (∀ (rw : recorder) r' st',
       notPermittedResponse recorder _ rw r' st' ≠
         authenticationRequiredResponse recorder _ rw r' st'
       ∧ notPermittedResponse recorder _ rw r' st' ≠
         inactiveAccountResponse recorder _ rw r' st').
Proof.
  intros Hm Hp Hprin Hanon Hact Hperms Hlacks. repeat split.
  - assert (authenticate app (router app) W _ w r st =
            router app W _ (updHeader (HttpHeader.Add "Vary" "Authorization") w)
              (contextSetUser r user) st) as ->.
    { destruct Hprin as [[_ ->]|(tok & Hs & Hv & Hl)]; [discriminate|].
      rewrite (authenticate_bearer _ _ _ _ _ _ tok Hs).
      cbv zeta. rewrite Hv, Hl. reflexivity. }
    unfold router, router_ServeHTTP.
    change (Method (contextSetUser r user)) with (Method r).
    change (URLPath (contextSetUser r user)) with (URLPath r).
    rewrite Hm, Hp, lookupRoute_post_movies.
    rewrite (requirePermission_user _ _ _ _ _ _ _ user
               (contextGetUser_contextSetUser r user)).
    rewrite Hanon, Hact, Hperms. simpl negb at 1. cbv iota.
    unfold Permissions_Include. rewrite bool_decide_eq_false_2 by exact Hlacks.
    reflexivity.
  - intros code next W' inst w' r' st' u Hu.
    apply requirePermission_user. exact Hu.
  - intros Heq. apply errorResponse_recorder_inj in Heq. discriminate.
  - intros Heq. apply errorResponse_recorder_inj in Heq. discriminate.
Qed.

(** ** rateLimit *)

Lemma insert_alter_same {A : Type} (f : A → A) (i : string) (x : A)
    (m : gmap string A) :
  <[i := x]> (alter f i m) = <[i := x]> m.
Proof.
  apply map_eq. intros j. destruct (decide (i = j)) as [<-|Hne].
  - rewrite !lookup_insert_eq. reflexivity.
  - rewrite !lookup_insert_ne by exact Hne.
    apply lookup_alter_ne. exact Hne.
Qed.

(** [rateLimit] on an identity that is already in the map. *)
Lemma rateLimit_enabled (app : application) (next : Handler)
    (W : Type) `{!ResponseWriter W} (w : W) (r : Request) (st : appState)
    (c : client) :
  limiter_enabled (appConfig app) = true →
  clients st !! realip_FromRequest app r = Some c →
  rateLimit app next W _ w r st =
    let st' l :=
      setClients (<[realip_FromRequest app r :=
                     {| limiter := l; lastSeen := clock st |}]> (clients st)) st in
    if negb (rate.Allow (clock st) (limiter c)).1
    then rateLimitExceededResponse W _ w r
           (st' (rate.Allow (clock st) (limiter c)).2)
    else next W _ w r (st' (rate.Allow (clock st) (limiter c)).2).
Proof.
  intros Hen Hc. unfold rateLimit. rewrite Hen, Hc. cbv zeta.
  rewrite lookup_alter_eq, Hc. simpl.
  destruct (rate.Allow (clock st) (limiter c)) as [ok l]. simpl.
  rewrite insert_alter_same. reflexivity.
Qed.

(** The sweep drops an entry not seen for more than three minutes and
    keeps every other one. *)
Lemma sweepClients_evicts (now : Z) (cs : gmap string client) (ip : string)
    (c : client) :
  cs !! ip = Some c → 3 * Minute < now - lastSeen c →
  sweepClients now cs !! ip = None.
Proof.
  intros Hc Hold. unfold sweepClients. apply map_lookup_filter_None.
  right. intros c' Hc' Hkeep. simpl in Hkeep.
  rewrite Hc in Hc'. injection Hc' as <-. contradiction.
Qed.

Lemma sweepClients_keeps (now : Z) (cs : gmap string client) (ip : string)
    (c : client) :
  cs !! ip = Some c → now - lastSeen c ≤ 3 * Minute →
  sweepClients now cs !! ip = Some c.
Proof.
  intros Hc Hnew. unfold sweepClients. apply map_lookup_filter_Some.
  split; [exact Hc|]. simpl. lia.
Qed.

(** C4, as the code has it.  For an identity already in the map, the
    bucket is refilled for the time elapsed; when at least one token is
    then available, one token is consumed and the request is handed on;
    otherwise it is answered with the rate-limit rejection and no token
    is consumed.  On both branches [lastSeen] becomes the current time:
    it is assigned before the bucket is consulted. *)
Theorem rateLimit_seen_identity (app : application) (next : Handler)
    (W : Type) `{!ResponseWriter W} (w : W) (r : Request) (st : appState)
    (c : client) :
  limiter_enabled (appConfig app) = true →
  clients st !! realip_FromRequest app r = Some c →
  let ip := realip_FromRequest app r in
  let l1 := rate.refill (clock st) (limiter c) in
  let entry l := {| limiter := l; lastSeen := clock st |} in
  (rate.oneToken ≤ rate.tokens l1 →
     rateLimit app next W _ w r st =
       next W _ w r
         (setClients
            (<[ip := entry {| rate.limit := rate.limit l1;
                              rate.burst := rate.burst l1;
                              rate.tokens := rate.tokens l1 - rate.oneToken;
                              rate.last := rate.last l1 |}]> (clients st)) st))
  ∧ (rate.tokens l1 < rate.oneToken →
       rateLimit app next W _ w r st =
         rateLimitExceededResponse W _ w r
           (setClients (<[ip := entry l1]> (clients st)) st)).
Proof.
  intros Hen Hc ip l1 entry. subst ip l1 entry.
  rewrite (rateLimit_enabled _ _ _ _ _ _ c Hen Hc). cbv zeta.
  unfold rate.Allow. split; intros Htok.
  - apply Z.leb_le in Htok. rewrite Htok. reflexivity.
  - apply Z.leb_gt in Htok. rewrite Htok. reflexivity.
Qed.

(** ** serve *)

(** C5, as the code has it.  Once a signal has arrived and the listener
    came up, [serve] returns: what closing the listener reported when
    the requests in flight complete within 30 seconds, the deadline
    error when they do not.  It returns nil only if [ListenAndServe]
    ended with [ErrServerClosed] and [Shutdown], run with the 30 second
    deadline, reported no error.  The configuration has no part in it. *)
Theorem serve_graceful_shutdown (cfg : config) (rn : run) :
  (∀ s, signal rn = Some s → listenError rn = None →
     (drain rn ≤ 30 * Second → serve cfg rn = Returns (closeError rn))
     ∧ (30 * Second < drain rn → serve cfg rn = Returns (Some DeadlineExceeded)))
  ∧ (serve cfg rn = Returns None →
     Server_ListenAndServe rn = Some ErrServerClosed
     ∧ Server_Shutdown (30 * Second) rn = None)
  ∧ (∀ cfg', serve cfg' rn = serve cfg rn).
Proof.
  split; [|split].
  - intros s Hsig Hlisten.
    unfold serve, Server_ListenAndServe, Server_Shutdown.
    rewrite Hsig, Hlisten. simpl. split; intros Hd.
    + apply Z.leb_le in Hd. rewrite Hd. reflexivity.
    + apply Z.leb_gt in Hd. rewrite Hd. reflexivity.
  - unfold serve. intros Hnil.
    destruct (Server_ListenAndServe rn) as [e|]; [|discriminate].
    destruct e; simpl in Hnil; try discriminate.
    split; [reflexivity|].
    destruct (signal rn); [|discriminate]. congruence.
  - intros cfg'. reflexivity.
Qed.

(** At 100 s, the client 10.0.0.1 has an empty bucket refilled at that
    very instant and was last seen at 90 s.  Its request is rejected,
    and [lastSeen] is 100 s afterwards: it was refreshed on the
    rejecting branch. *)
Lemma rateLimit_rejection_refreshes_lastSeen :
  let ip := "10.0.0.1" in
  let c := {| limiter := {| rate.limit := 2; rate.burst := 4;
                            rate.tokens := 0; rate.last := 100 * Second |};
              lastSeen := 90 * Second |} in
  let st := setClients {[ ip := c ]} Sample.st0 in
  let r := Sample.request "GET" "/v1/healthcheck" [("X-Real-Ip", ip)] in
  let res := rateLimit Sample.app (Sample.reply 200 "ok") recorder _
               newRecorder r st in
  realip_FromRequest Sample.app r = ip
  ∧ (rate.Allow (clock st) (limiter c)).1 = false
  ∧ res.1.2 = Write (ErrorBody RateLimitExceeded)
                (WriteHeader 429 newRecorder)
  ∧ lastSeen <$> (clients st !! ip) = Some (90 * Second)
  ∧ lastSeen <$> (clients res.2 !! ip) = Some (100 * Second).
Proof. vm_compute. repeat split; reflexivity. Qed.

(** The same from the empty map: the client sends four requests at
    100 s, which use up its burst, and a fifth at 100.1 s.  The fifth is
    rejected, and [lastSeen] moves from 100 s to 100.1 s. *)
Lemma rateLimit_fifth_request_refreshes_lastSeen :
  let ip := "10.0.0.1" in
  let later := 100 * Second + Second / 10 in
  let st := Sample.atTime later (Sample.afterRequests 4 Sample.st0) in
  let res := rateLimit Sample.app (Sample.reply 200 "ok") recorder _
               newRecorder Sample.healthcheck st in
  clients Sample.st0 = ∅
  ∧ res.1.2 = Write (ErrorBody RateLimitExceeded)
                (WriteHeader 429 newRecorder)
  ∧ lastSeen <$> (clients st !! ip) = Some (100 * Second)
  ∧ lastSeen <$> (clients res.2 !! ip) = Some later.
Proof. vm_compute. repeat split; reflexivity. Qed.

(** With a configured grace period of 5 s and requests in flight that
    need 10 s, [serve] returns nil, not a timeout error; with a
    configured grace period of 60 s and requests that need 40 s, it
    returns the deadline error although they would complete in time. *)
Lemma serve_ignores_configured_grace_period :
  let rn d := {| listenError := None; signal := Some "terminated";
                 drain := d; closeError := None |} in
  let cfg60 := {| port := 4000; env := "production";
                  limiter_enabled := true; limiter_rps := 2;
                  limiter_burst := 4; cors_trustedOrigins := [];
                  shutdownGracePeriod := 60 * Second |} in
  (shutdownGracePeriod Sample.cfg < drain (rn (10 * Second))
   ∧ serve Sample.cfg (rn (10 * Second)) = Returns None)
  ∧ (drain (rn (40 * Second)) ≤ shutdownGracePeriod cfg60
     ∧ serve cfg60 (rn (40 * Second)) = Returns (Some DeadlineExceeded)).
Proof. vm_compute. repeat split; congruence. Qed.

(** ** metricsResponseWriter and metrics *)

Lemma last_cons {A : Type} (a d : A) (l : list A) :
  List.last (a :: l) d = List.last l a.
Proof.
  revert a d. induction l as [|b l IH]; intros a d; [reflexivity|].
  change (List.last (b :: l) d = List.last (b :: l) a).
  rewrite (IH b d), (IH b a). reflexivity.
Qed.

(** The recorded status is the argument of the last [WriteHeader] call
    made on the wrapper, or what it was when there is none. *)
Lemma statusCode_runOps {W : Type} `{!ResponseWriter W}
    (ops : list writerOp) (mw : metricsResponseWriter W) :
  statusCode (runOps ops mw) = List.last (explicitStatuses ops) (statusCode mw).
Proof.
  revert mw. induction ops as [|op ops IH]; intros mw; [reflexivity|].
  unfold runOps in *. simpl fold_left. rewrite IH.
  destruct op as [k v|k v|c|b]; simpl.
  - reflexivity.
  - reflexivity.
  - change (List.last (explicitStatuses ops) c =
            List.last (c :: explicitStatuses ops) (statusCode mw)).
    rewrite last_cons. reflexivity.
  - unfold mw_Write. destruct (headerWritten mw); reflexivity.
Qed.

Lemma metrics_scriptHandler (app : application)
    (script : Request → appState → list writerOp * appState)
    (W : Type) `{!ResponseWriter W} (w : W) (r : Request) (st : appState) :
  let st1 := setVars (addRequestsReceived (vars st)) st in
  let ops := (script r st1).1 in
  let st2 := (script r st1).2 in
  let mw := runOps ops (newMetricsResponseWriter w) in
  metrics app (scriptHandler script) W _ w r st =
    (Returned, inner mw,
     setVars (addResponseSent (statusCode mw)
                (Duration_Microseconds (clock st2 - clock st)) (vars st2)) st2).
Proof.
  cbv zeta. unfold metrics, scriptHandler.
  destruct (script r (setVars (addRequestsReceived (vars st)) st)) as [ops st2].
  reflexivity.
Qed.

Lemma recCalls_runOps_grows (ops : list writerOp)
    (mw : metricsResponseWriter recorder) :
  ∃ l, recCalls (inner (runOps ops mw)) = recCalls (inner mw) ++ l.
Proof.
  revert mw. induction ops as [|op ops IH]; intros mw.
  - exists []. rewrite app_nil_r. reflexivity.
  - unfold runOps in *. simpl fold_left.
    destruct (IH (runOp mw op)) as [l Hl]. rewrite Hl.
    destruct op as [k v|k v|c|b]; simpl.
    + eauto.
    + eauto.
    + rewrite <- app_assoc. eauto.
    + unfold mw_Write. destruct (headerWritten mw); simpl;
        rewrite <- !app_assoc; eauto.
Qed.

(** Through the wrapper, the server's writer is sent the status that
    the handler's own calls stand for. *)
Lemma sentStatus_runOps (ops : list writerOp)
    (mw : metricsResponseWriter recorder) :
  recCalls (inner mw) = [] →
  sentStatus (recCalls (inner (runOps ops mw))) = handlerStatus ops.
Proof.
  revert mw. induction ops as [|op ops IH]; intros mw Hfresh.
  - simpl. rewrite Hfresh. reflexivity.
  - unfold runOps in *. simpl fold_left.
    destruct op as [k v|k v|c|b].
    + apply IH. exact Hfresh.
    + apply IH. exact Hfresh.
    + destruct (recCalls_runOps_grows ops (runOp mw (OpWriteHeader c)))
        as [l Hl].
      unfold runOps in Hl. rewrite Hl. simpl. rewrite Hfresh. reflexivity.
    + destruct (recCalls_runOps_grows ops (runOp mw (OpWrite b))) as [l Hl].
      unfold runOps in Hl. rewrite Hl. simpl. unfold mw_Write.
      destruct (headerWritten mw); simpl; rewrite Hfresh; reflexivity.
Qed.

(** After a handler that returns, [metrics] adds one to the counter
    keyed by the argument of the handler's last [WriteHeader] call, and
    by 200 when it made no such call, whether or not it wrote a body.
    On the server's writer the status sent is the one of the first
    call, so the two agree only when the handler makes no [WriteHeader]
    call or its only one comes before any [Write]. *)
Lemma metrics_counts_last_WriteHeader (app : application)
    (script : Request → appState → list writerOp * appState)
    (W : Type) `{!ResponseWriter W} (w : W) (r : Request) (st : appState) :
  let st1 := setVars (addRequestsReceived (vars st)) st in
  let ops := (script r st1).1 in
  let st2 := (script r st1).2 in
  let counted (res : outcome * W * appState) key :=
    total_responses_sent_by_status (vars res.2) =
      expvar_Map_Add (strconv_Itoa key) 1
        (total_responses_sent_by_status (vars st2)) in
  let res := metrics app (scriptHandler script) W _ w r st in
  (∀ c, explicitStatuses ops = [c] → counted res c)
  ∧ (explicitStatuses ops = [] → counted res StatusOK)
  ∧ counted res (List.last (explicitStatuses ops) StatusOK)
  ∧ (∀ rw : recorder, recCalls rw = [] →
       sentStatus
         (recCalls (metrics app (scriptHandler script) recorder _ rw r st).1.2)
       = handlerStatus ops).
Proof.
  cbv zeta. rewrite metrics_scriptHandler. cbv zeta. simpl.
  rewrite statusCode_runOps. simpl statusCode.
  repeat split.
  - intros c ->. reflexivity.
  - intros ->. reflexivity.
  - intros rw Hfresh. rewrite metrics_scriptHandler. cbv zeta. simpl.
    apply sentStatus_runOps. exact Hfresh.
Qed.

(** C6.  The counter is not always keyed by the status the handler
    produced.  A health check that answers with status 200 and then
    panics goes through the whole pipeline of [routes]: the client is
    sent 200, and the request is counted under 500, not under 200.
    The same happens without a panic: after [Write] followed by
    [WriteHeader 500] the status sent is 200, after [WriteHeader 201]
    followed by [WriteHeader 500] it is 201, and both are counted under
    500.  [WriteHeader] on the wrapper overwrites the recorded status
    on every call and never sets [headerWritten]. *)
Theorem metrics_counts_status_not_sent :
  let counts (res : outcome * recorder * appState) (key : string) :=
    total_responses_sent_by_status (vars res.2) !! key in
  let crashed := routes Sample.crashing recorder _ newRecorder
                   Sample.healthcheck Sample.st0 in
  let streamed := metrics Sample.app (scriptHandler Sample.writesThenFails)
                    recorder _ newRecorder Sample.healthcheck Sample.st0 in
  let twice := metrics Sample.app (scriptHandler Sample.twoStatuses)
                 recorder _ newRecorder Sample.healthcheck Sample.st0 in
  (sentStatus (recCalls crashed.1.2) = Some 200
   ∧ counts crashed "200" = None ∧ counts crashed "500" = Some 1)
  ∧ (sentStatus (recCalls streamed.1.2) = Some 200
     ∧ counts streamed "200" = None ∧ counts streamed "500" = Some 1)
  ∧ (sentStatus (recCalls twice.1.2) = Some 201
     ∧ counts twice "201" = None ∧ counts twice "500" = Some 1).
Proof. vm_compute. repeat split; reflexivity. Qed.

Lemma runOps_app {W : Type} `{!ResponseWriter W} (ops1 ops2 : list writerOp)
    (w : W) :
  runOps (ops1 ++ ops2) w = runOps ops2 (runOps ops1 w).
Proof. unfold runOps. apply fold_left_app. Qed.

(** Header calls go through the wrapper to the embedded writer and leave
    the wrapper's own fields alone. *)
Lemma runOps_headers {W : Type} `{!ResponseWriter W} (ops : list writerOp)
    (mw : metricsResponseWriter W) :
  forallb isHeaderOp ops = true →
  runOps ops mw =
    {| inner := runOps ops (inner mw);
       statusCode := statusCode mw;
       headerWritten := headerWritten mw |}.
Proof.
  revert mw. induction ops as [|op ops IH]; intros mw Hops.
  - destruct mw. reflexivity.
  - simpl in Hops. apply andb_prop in Hops as [Hop Hops].
    unfold runOps in *. simpl fold_left. rewrite (IH _ Hops).
    destruct op; try discriminate; reflexivity.
Qed.

Lemma recCalls_runOps_headers (ops : list writerOp) (rw : recorder) :
  forallb isHeaderOp ops = true → recCalls (runOps ops rw) = recCalls rw.
Proof.
  revert rw. induction ops as [|op ops IH]; intros rw Hops; [reflexivity|].
  simpl in Hops. apply andb_prop in Hops as [Hop Hops].
  unfold runOps in *. simpl fold_left. rewrite (IH _ Hops).
  destruct op; try discriminate; reflexivity.
Qed.

Lemma writeHeaderCalls_app (l1 l2 : list call) :
  writeHeaderCalls (l1 ++ l2) = writeHeaderCalls l1 ++ writeHeaderCalls l2.
Proof.
  induction l1 as [|[c|b] l1 IH]; simpl; [reflexivity| |exact IH].
  rewrite IH. reflexivity.
Qed.

(** C9.  [WriteHeader] on the wrapper records the status and calls the
    embedded writer's [WriteHeader], but leaves [headerWritten] false.
    So when a handler calls [WriteHeader c] and then [Write], the
    embedded writer receives [WriteHeader c], then [WriteHeader 200],
    then the [Write]; the recorded status stays [c].  On the server's
    writer that is two [WriteHeader] calls, with c and with 200, also
    when the handler sets headers first. *)
Theorem metricsResponseWriter_double_WriteHeader
    (W : Type) `{!ResponseWriter W} (w : W) (c : Z) (b : body) :
  let mw := Write b (WriteHeader c (newMetricsResponseWriter w)) in
  headerWritten (WriteHeader c (newMetricsResponseWriter w)) = false
  ∧ inner mw = Write b (WriteHeader StatusOK (WriteHeader c w))
  ∧ statusCode mw = c
  ∧ (∀ (hdrs : list writerOp) (rw : recorder),
       forallb isHeaderOp hdrs = true →
       let mw' := runOps (hdrs ++ [OpWriteHeader c; OpWrite b])
                    (newMetricsResponseWriter rw) in
       recCalls (inner mw') =
         recCalls rw ++ [CallWriteHeader c; CallWriteHeader StatusOK; CallWrite b]
       ∧ writeHeaderCalls (recCalls (inner mw')) =
           writeHeaderCalls (recCalls rw) ++ [c; StatusOK]
       ∧ statusCode mw' = c).
Proof.
  cbv zeta. split; [reflexivity|]. split; [reflexivity|].
  split; [reflexivity|].
  intros hdrs rw Hhdrs.
  rewrite runOps_app, (runOps_headers _ _ Hhdrs). simpl.
  rewrite (recCalls_runOps_headers _ _ Hhdrs), <- !app_assoc.
  split; [reflexivity|]. split; [|reflexivity].
  rewrite writeHeaderCalls_app. reflexivity.
Qed.

(** ** enableCORS *)

#[export] Instance recorder_Laws : ResponseWriterLaws recorder.
Proof. split; reflexivity. Qed.

#[export] Instance metrics_Laws (W : Type) `{!ResponseWriter W}
    `{!ResponseWriterLaws W} : ResponseWriterLaws (metricsResponseWriter W).
Proof.
  split.
  - intros f mw. simpl. apply Header_updHeader.
  - intros c mw. simpl. apply Header_WriteHeader.
  - intros b mw. simpl. unfold mw_Write.
    destruct (headerWritten mw); simpl.
    + apply Header_Write.
    + rewrite Header_Write. apply Header_WriteHeader.
Qed.

Lemma Header_Set_lookup {W : Type} `{!ResponseWriter W}
    `{!ResponseWriterLaws W} (k v key : string) (w : W) :
  Header (updHeader (HttpHeader.Set_ k v) w) !! key =
    if decide (k = key) then Some [v] else Header w !! key.
Proof.
  rewrite Header_updHeader. unfold HttpHeader.Set_. apply lookup_insert.
Qed.

Lemma Header_Add_lookup {W : Type} `{!ResponseWriter W}
    `{!ResponseWriterLaws W} (k v key : string) (w : W) :
  Header (updHeader (HttpHeader.Add k v) w) !! key =
    if decide (k = key) then Some (HttpHeader.Values k (Header w) ++ [v])
    else Header w !! key.
Proof.
  rewrite Header_updHeader. unfold HttpHeader.Add. apply lookup_insert.
Qed.

(** The answer to a pre-flight request from a trusted origin. *)
Lemma corsOrigins_preflight {W : Type} `{!ResponseWriter W} (r : Request)
    (origin : string) (trusted : list string) (w : W) :
  origin ∈ trusted → isPreflight r = true →
  corsOrigins r origin trusted w =
    (WriteHeader StatusOK
       (updHeader (HttpHeader.Set_ "Access-Control-Allow-Headers"
                     "Authorization, Content-Type")
          (updHeader (HttpHeader.Set_ "Access-Control-Allow-Methods"
                        "OPTIONS, PUT, PATCH, DELETE")
             (updHeader (HttpHeader.Set_ "Access-Control-Allow-Origin" origin)
                w))), true).
Proof.
  intros Hin Hpre. induction trusted as [|o rest IH].
  - inversion Hin.
  - simpl. destruct (String.eqb origin o) eqn:Ho.
    + rewrite Hpre. reflexivity.
    + apply String.eqb_neq in Ho. apply elem_of_cons in Hin as [Heq|Hin];
        [contradiction|]. apply IH. exact Hin.
Qed.

(** The loop touches no header but the three Access-Control-Allow ones. *)
Lemma corsOrigins_Header_other {W : Type} `{!ResponseWriter W}
    `{!ResponseWriterLaws W} (r : Request) (origin : string)
    (trusted : list string) (w : W) (key : string) :
  key ≠ "Access-Control-Allow-Origin" →
  key ≠ "Access-Control-Allow-Methods" →
  key ≠ "Access-Control-Allow-Headers" →
  Header (corsOrigins r origin trusted w).1 !! key = Header w !! key.
Proof.
  intros Ho Hm Hh. induction trusted as [|o rest IH]; [reflexivity|].
  simpl. destruct (String.eqb origin o); [|exact IH].
  destruct (isPreflight r); simpl.
  - rewrite Header_WriteHeader, !Header_Set_lookup.
    repeat case_decide; congruence.
  - rewrite Header_Set_lookup. case_decide; congruence.
Qed.

(** C7.  An OPTIONS request with an Origin header from the allow-list
    and an Access-Control-Request-Method header is answered by the CORS
    stage itself: the result is the same whatever handler it wraps, it
    ends with [WriteHeader 200], and the response carries the
    Access-Control-Allow-Methods header, whose value contains PUT.  On
    the server's writer 200 is the status sent. *)
Theorem enableCORS_preflight (app : application)
    (W : Type) `{!ResponseWriter W} `{!ResponseWriterLaws W}
    (w : W) (r : Request) (st : appState) :
  let origin := HttpHeader.Get "Origin" (ReqHeader r) in
  Method r = "OPTIONS" →
  origin ≠ "" →
  origin ∈ cors_trustedOrigins (appConfig app) →
  HttpHeader.Get "Access-Control-Request-Method" (ReqHeader r) ≠ "" →
  (∃ w0, (∀ next, enableCORS app next W _ w r st =
                    (Returned, WriteHeader StatusOK w0, st))
         ∧ Header (WriteHeader StatusOK w0) !! "Access-Control-Allow-Origin"
             = Some [origin]
         ∧ ∃ methods,
             Header (WriteHeader StatusOK w0) !! "Access-Control-Allow-Methods"
               = Some [methods]
             ∧ strings_Contains methods "PUT" = true)
  ∧ (∀ (rw : recorder) next, recCalls rw = [] →
       sentStatus (recCalls (enableCORS app next recorder _ rw r st).1.2)
         = Some StatusOK).
Proof.
  intros origin Hm Hne Hin Hreq. subst origin.
  assert (isPreflight r = true) as Hpre.
  { unfold isPreflight. rewrite Hm. simpl.
    rewrite (eqb_empty_false _ Hreq). reflexivity. }
  split.
  - eexists. split; [|split].
    + intros next. unfold enableCORS. rewrite (eqb_empty_false _ Hne).
      simpl negb. cbv iota. rewrite (corsOrigins_preflight _ _ _ _ Hin Hpre).
      reflexivity.
    + rewrite Header_WriteHeader, !Header_Set_lookup.
      repeat case_decide; congruence.
    + eexists. split.
      * rewrite Header_WriteHeader, !Header_Set_lookup.
        repeat case_decide; try congruence. reflexivity.
      * reflexivity.
  - intros rw next Hcalls. unfold enableCORS. rewrite (eqb_empty_false _ Hne).
    simpl negb. cbv iota. rewrite (corsOrigins_preflight _ _ _ _ Hin Hpre).
    simpl. rewrite Hcalls. reflexivity.
Qed.

(** C8.  Whatever the origin, the writer that the CORS stage hands on,
    or returns with, has the value Access-Control-Request-Method
    appended under the header name Vart, and under Vary exactly the
    value Origin appended: the stage adds no Vary entry for
    Access-Control-Request-Method. *)
Theorem enableCORS_adds_Vart (app : application)
    (W : Type) `{!ResponseWriter W} `{!ResponseWriterLaws W}
    (w : W) (r : Request) (st : appState) :
  ∃ w', ((∀ next, enableCORS app next W _ w r st = (Returned, w', st))
         ∨ (∀ next, enableCORS app next W _ w r st = next W _ w' r st))
        ∧ Header w' !! "Vart" =
            Some (HttpHeader.Values "Vart" (Header w)
                    ++ ["Access-Control-Request-Method"])
        ∧ Header w' !! "Vary" =
            Some (HttpHeader.Values "Vary" (Header w) ++ ["Origin"]).
Proof.
  set (w1 := updHeader (HttpHeader.Add "Vart" "Access-Control-Request-Method")
               (updHeader (HttpHeader.Add "Vary" "Origin") w)).
  assert (Header w1 !! "Vart" =
          Some (HttpHeader.Values "Vart" (Header w)
                  ++ ["Access-Control-Request-Method"])) as Hvart.
  { unfold w1. rewrite Header_Add_lookup. rewrite decide_True by reflexivity.
    unfold HttpHeader.Values at 1. rewrite Header_Add_lookup.
    rewrite decide_False by discriminate. reflexivity. }
  assert (Header w1 !! "Vary" =
          Some (HttpHeader.Values "Vary" (Header w) ++ ["Origin"])) as Hvary.
  { unfold w1. rewrite Header_Add_lookup. rewrite decide_False by discriminate.
    rewrite Header_Add_lookup. rewrite decide_True by reflexivity.
    reflexivity. }
  unfold enableCORS. fold w1.
  destruct (negb (String.eqb (HttpHeader.Get "Origin" (ReqHeader r)) "")).
  - pose proof (corsOrigins_Header_other r
                  (HttpHeader.Get "Origin" (ReqHeader r))
                  (cors_trustedOrigins (appConfig app)) w1) as Hother.
    destruct (corsOrigins r _ _ w1) as [w' [|]]; simpl in Hother;
      exists w'; (split; [auto|]);
      rewrite !Hother by discriminate; auto.
  - exists w1. auto.
Qed.

(** ** GET /debug/vars *)

Lemma lookupRoute_debug_vars (app : application) :
  lookupRoute (routeTable app) "GET" "/debug/vars" = Some (expvar_Handler, []).
Proof. reflexivity. Qed.

(** A client that sends the header Authorization: Basic xyz with its GET
    /debug/vars passes the rate limiter (the limiter hands the request
    on to [authenticate]) and is answered 401 with the invalid-credential
    body: the counters are not written. *)
Lemma debug_vars_refused_for_bad_credentials :
  let r := Sample.request "GET" "/debug/vars"
             [("X-Real-Ip", "10.0.0.1"); ("Authorization", "Basic xyz")] in
  let afterLimiter := authenticate Sample.app (router Sample.app) in
  let res := rateLimit Sample.app afterLimiter recorder _ newRecorder r
               Sample.st0 in
  (∃ st', res = afterLimiter recorder _ newRecorder r st')
  ∧ sentStatus (recCalls res.1.2) = Some 401
  ∧ sentBodies (recCalls res.1.2) = [ErrorBody InvalidCredentialFormat].
Proof.
  cbv zeta. split; [|split].
  - match goal with
    | |- ∃ st', ?res = _ => exists res.2
    end.
    vm_compute. reflexivity.
  - vm_compute. reflexivity.
  - vm_compute. reflexivity.
Qed.

(** C10, as the code has it.  The route GET /debug/vars is registered
    with the bare expvar handler, but the whole router sits behind
    [authenticate].  A request to it that got past the rate limiter is
    answered with the counters when it carries no Authorization header
    or a credential that resolves to a user, whatever that user's
    activation and permissions. *)
Theorem debug_vars_open_to_resolved_principals (app : application)
    (W : Type) `{!ResponseWriter W} (w : W) (r : Request) (st : appState)
    (u : User) :
  Method r = "GET" → URLPath r = "/debug/vars" →
  principalFor app r u →
  lookupRoute (routeTable app) "GET" "/debug/vars" = Some (expvar_Handler, [])
  ∧ authenticate app (router app) W _ w r st =
      (Returned,
       Write (VarsBody (vars st))
         (updHeader (HttpHeader.Add "Vary" "Authorization") w),
       st).
Proof.
  intros Hm Hp Hprin. split; [reflexivity|].
  assert (authenticate app (router app) W _ w r st =
          router app W _ (updHeader (HttpHeader.Add "Vary" "Authorization") w)
            (contextSetUser r u) st) as ->.
  { destruct Hprin as [[Habs ->]|(tok & Hs & Hv & Hl)].
    - apply authenticate_absent. exact Habs.
    - rewrite (authenticate_bearer _ _ _ _ _ _ tok Hs).
      cbv zeta. rewrite Hv, Hl. reflexivity. }
  unfold router, router_ServeHTTP.
  change (Method (contextSetUser r u)) with (Method r).
  change (URLPath (contextSetUser r u)) with (URLPath r).
  rewrite Hm, Hp, lookupRoute_debug_vars. reflexivity.
Qed.

(** * The theorems at concrete inputs *)

Lemma authenticate_failure_classes_witness :
  bearerShape (authorizationOf Sample.faultCreates) Sample.faultToken
  ∧ tokenValid Sample.app Sample.faultToken = true
  ∧ authenticate Sample.app (router Sample.app) recorder _ newRecorder
      Sample.faultCreates Sample.st0 =
    serverErrorResponse (Wrapped "query" (ErrMsg "connection refused"))
      recorder _
      (updHeader (HttpHeader.Add "Vary" "Authorization") newRecorder)
      Sample.faultCreates Sample.st0.
Proof.
  assert (bearerShape (authorizationOf Sample.faultCreates) Sample.faultToken)
    as Hs by (split; vm_compute; reflexivity).
  split; [exact Hs|]. split; [vm_compute; reflexivity|].
  pose proof (authenticate_failure_classes Sample.app (router Sample.app)
                recorder newRecorder Sample.faultCreates Sample.st0) as H.
  cbv zeta in H. destruct H as (_ & _ & _ & H).
  apply (H Sample.faultToken); [exact Hs| | |]; vm_compute; reflexivity.
Defined.

Lemma principal_attached_witness :
  Forall neverMissesUser (outsideHandlers Sample.app)
  ∧ neverMissesUser (authenticate Sample.app (router Sample.app)).
Proof.
  assert (Forall neverMissesUser (outsideHandlers Sample.app)) as Hout.
  { unfold outsideHandlers. simpl.
    repeat (apply Forall_cons; split;
            [intros W inst w r st; discriminate|]).
    apply Forall_nil. exact I. }
  split; [exact Hout|].
  exact (proj2 (proj2 (principal_attached Sample.app)) Hout).
Defined.

Lemma movies_write_permission_denied_witness :
  principalFor Sample.app Sample.aliceCreates Sample.alice
  ∧ (PermissionWrite ∉ ({[ PermissionRead ]} : gset string))
  ∧ authenticate Sample.app (router Sample.app) recorder _ newRecorder
      Sample.aliceCreates Sample.st0 =
    notPermittedResponse recorder _
      (updHeader (HttpHeader.Add "Vary" "Authorization") newRecorder)
      (contextSetUser Sample.aliceCreates Sample.alice) Sample.st0.
Proof.
  assert (principalFor Sample.app Sample.aliceCreates Sample.alice) as Hp.
  { right. exists Sample.aliceToken.
    repeat split; vm_compute; reflexivity. }
  assert (PermissionWrite ∉ ({[ PermissionRead ]} : gset string)) as Hl.
  { apply not_elem_of_singleton. discriminate. }
  split; [exact Hp|]. split; [exact Hl|].
  apply (movies_write_permission_denied Sample.app recorder newRecorder
           Sample.aliceCreates Sample.st0 Sample.alice {[ PermissionRead ]});
    try reflexivity; assumption.
Defined.

Lemma rateLimit_seen_identity_witness :
  limiter_enabled (appConfig Sample.app) = true
  ∧ clients Sample.stDrained !! realip_FromRequest Sample.app Sample.aliceCreates
      = Some Sample.drained
  ∧ rateLimit Sample.app (router Sample.app) recorder _ newRecorder
      Sample.aliceCreates Sample.stDrained =
    rateLimitExceededResponse recorder _ newRecorder Sample.aliceCreates
      (setClients
         (<["10.0.0.1" :=
              {| limiter := rate.refill (100 * Second) (limiter Sample.drained);
                 lastSeen := 100 * Second |}]> (clients Sample.stDrained))
         Sample.stDrained).
Proof.
  assert (clients Sample.stDrained
            !! realip_FromRequest Sample.app Sample.aliceCreates
          = Some Sample.drained) as Hc by (vm_compute; reflexivity).
  split; [reflexivity|]. split; [exact Hc|].
  apply (proj2 (rateLimit_seen_identity Sample.app (router Sample.app)
                  recorder newRecorder Sample.aliceCreates Sample.stDrained
                  Sample.drained eq_refl Hc)).
  vm_compute. reflexivity.
Defined.

Lemma enableCORS_preflight_witness :
  HttpHeader.Get "Origin" (ReqHeader Sample.preflight)
    ∈ cors_trustedOrigins (appConfig Sample.app)
  ∧ ∀ next,
      sentStatus
        (recCalls (enableCORS Sample.app next recorder _ newRecorder
                     Sample.preflight Sample.st0).1.2) = Some StatusOK.
Proof.
  assert (HttpHeader.Get "Origin" (ReqHeader Sample.preflight)
            ∈ cors_trustedOrigins (appConfig Sample.app)) as Hin.
  { vm_compute. apply list_elem_of_here. }
  split; [exact Hin|]. intros next.
  refine (proj2 (enableCORS_preflight Sample.app recorder newRecorder
                   Sample.preflight Sample.st0 eq_refl _ Hin _)
            newRecorder next eq_refl);
    vm_compute; discriminate.
Defined.

Lemma enableCORS_adds_Vart_witness :
  ∃ w', ((∀ next, enableCORS Sample.app next recorder _ newRecorder
                    Sample.aliceCreates Sample.st0 = (Returned, w', Sample.st0))
         ∨ (∀ next, enableCORS Sample.app next recorder _ newRecorder
                      Sample.aliceCreates Sample.st0 =
                    next recorder _ w' Sample.aliceCreates Sample.st0))
        ∧ Header w' !! "Vart" = Some ["Access-Control-Request-Method"]
        ∧ Header w' !! "Vary" = Some ["Origin"].
Proof.
  exact (enableCORS_adds_Vart Sample.app recorder newRecorder
           Sample.aliceCreates Sample.st0).
Defined.

Lemma debug_vars_open_to_resolved_principals_witness :
  principalFor Sample.app Sample.bobReadsVars Sample.bob
  ∧ authenticate Sample.app (router Sample.app) recorder _ newRecorder
      Sample.bobReadsVars Sample.st0 =
    (Returned,
     Write (VarsBody (vars Sample.st0))
       (updHeader (HttpHeader.Add "Vary" "Authorization") newRecorder),
     Sample.st0).
Proof.
  assert (principalFor Sample.app Sample.bobReadsVars Sample.bob) as Hp.
  { right. exists Sample.bobToken.
    repeat split; vm_compute; reflexivity. }
  split; [exact Hp|].
  exact (proj2 (debug_vars_open_to_resolved_principals Sample.app recorder
                  newRecorder Sample.bobReadsVars Sample.st0 Sample.bob
                  eq_refl eq_refl Hp)).
Defined.

Lemma serve_graceful_shutdown_witness :
  signal (Sample.terminated (10 * Second)) = Some "terminated"
  ∧ drain (Sample.terminated (10 * Second)) ≤ 30 * Second
  ∧ serve Sample.cfg (Sample.terminated (10 * Second)) = Returns None.
Proof.
  split; [reflexivity|]. split; [vm_compute; discriminate|].
  apply (proj1 (serve_graceful_shutdown Sample.cfg
                  (Sample.terminated (10 * Second)))
           "terminated" eq_refl eq_refl).
  vm_compute. discriminate.
Defined.

Lemma metricsResponseWriter_double_WriteHeader_witness :
  writeHeaderCalls
    (recCalls (inner (runOps
                        [OpHeaderSet "Content-Type" "application/json";
                         OpWriteHeader 201; OpWrite (Bytes "created")]
                        (newMetricsResponseWriter newRecorder)))) = [201; 200].
Proof.
  exact (proj1 (proj2
           (proj2 (proj2 (proj2
              (metricsResponseWriter_double_WriteHeader recorder newRecorder
                 201 (Bytes "created"))))
              [OpHeaderSet "Content-Type" "application/json"] newRecorder
              eq_refl))).
Defined.

(** * Further properties of the code *)

(** ** internal/validator *)

Lemma Valid_empty_iff (v : validator.Validator) :
  validator.Valid v = true ↔ validator.FieldErrors v = ∅.
Proof.
  unfold validator.Valid. rewrite bool_decide_eq_true.
  apply map_size_empty_iff.
Qed.

Lemma Valid_AddError (key message : string) (v : validator.Validator) :
  validator.Valid (validator.AddError key message v) = false.
Proof.
  apply not_true_is_false. rewrite Valid_empty_iff.
  unfold validator.AddError.
  destruct (validator.FieldErrors v !! key) as [old|] eqn:Hk.
  - intros Hempty. rewrite Hempty, lookup_empty in Hk. discriminate.
  - simpl. apply insert_non_empty.
Qed.

(** X1.  [AddError] keeps the message a key already has and records the
    new one only for a key without a message; no other key changes, and
    the validator is not valid afterwards. *)
Theorem AddError_keeps_first_message (key message : string)
    (v : validator.Validator) :
  validator.FieldErrors (validator.AddError key message v) !! key
    = Some (default message (validator.FieldErrors v !! key))
  ∧ (∀ k, k ≠ key →
       validator.FieldErrors (validator.AddError key message v) !! k
         = validator.FieldErrors v !! k)
  ∧ validator.Valid (validator.AddError key message v) = false.
Proof.
  split; [|split].
  - unfold validator.AddError.
    destruct (validator.FieldErrors v !! key) as [old|] eqn:Hk; simpl.
    + exact Hk.
    + apply lookup_insert_eq.
  - intros k Hne. unfold validator.AddError.
    destruct (validator.FieldErrors v !! key) as [old|] eqn:Hk; simpl.
    + reflexivity.
    + apply lookup_insert_ne. congruence.
  - apply Valid_AddError.
Qed.

Lemma Valid_Check (ok : bool) (key message : string)
    (v : validator.Validator) :
  validator.Valid (validator.Check ok key message v)
    = ok && validator.Valid v.
Proof.
  destruct ok; simpl; [reflexivity|]. apply Valid_AddError.
Qed.

Lemma Valid_runChecks (checks : list (bool * string * string))
    (v : validator.Validator) :
  validator.Valid (runChecks checks v)
    = validator.Valid v && forallb (λ c, c.1.1) checks.
Proof.
  revert v. induction checks as [|c checks IH]; intros v; simpl.
  - rewrite andb_true_r. reflexivity.
  - unfold runChecks in *. simpl. rewrite IH, Valid_Check.
    destruct c.1.1, (validator.Valid v); reflexivity.
Qed.

(** X2.  After any run of [Check] calls on a new validator, [Valid]
    holds exactly when every check passed; one failed check, wherever
    it stands and whatever its key, makes the validator invalid. *)
Theorem Valid_iff_all_checks_pass (checks : list (bool * string * string)) :
  validator.Valid (runChecks checks validator.New)
    = forallb (λ c, c.1.1) checks.
Proof. rewrite Valid_runChecks. reflexivity. Qed.

Lemma dom_uniqueValues_from {T : Type} `{Countable T} (values : list T)
    (m : gmap T bool) :
  dom (fold_left (λ m value, <[value := true]> m) values m)
    = list_to_set values ∪ dom m.
Proof.
  revert m. induction values as [|x values IH]; intros m; cbn [fold_left].
  - rewrite list_to_set_nil, (left_id_L ∅ (∪)). reflexivity.
  - rewrite IH, dom_insert_L, list_to_set_cons.
    rewrite (comm_L (∪) {[x]} (list_to_set values)), <- (assoc_L (∪)).
    reflexivity.
Qed.

Lemma size_uniqueValues {T : Type} `{Countable T} (values : list T) :
  size (validator.uniqueValues values) = size (list_to_set values : gset T).
Proof.
  unfold validator.uniqueValues. rewrite <- size_dom.
  rewrite dom_uniqueValues_from, dom_empty_L, (right_id_L ∅ (∪)).
  reflexivity.
Qed.

Lemma size_list_to_set_NoDup {T : Type} `{Countable T} (values : list T) :
  (size (list_to_set values : gset T) ≤ length values)%nat
  ∧ (size (list_to_set values : gset T) = length values ↔ NoDup values).
Proof.
  induction values as [|x values [IHle IHeq]].
  - rewrite list_to_set_nil, size_empty. simpl.
    split; [lia|]. split; [intros _; constructor|reflexivity].
  - rewrite list_to_set_cons. simpl length.
    destruct (decide (x ∈ values)) as [Hin|Hnin].
    + assert (({[x]} ∪ list_to_set values : gset T) = list_to_set values)
        as ->.
      { apply subseteq_union_1_L. apply singleton_subseteq_l.
        apply elem_of_list_to_set. exact Hin. }
      split; [lia|]. split; [lia|].
      intros Hnd. apply NoDup_cons in Hnd as [Hnin _]. contradiction.
    + rewrite size_union.
      2: { apply disjoint_singleton_l. rewrite elem_of_list_to_set.
           exact Hnin. }
      rewrite size_singleton.
      split; [lia|]. rewrite NoDup_cons. split.
      * intros Hsz. split; [exact Hnin|]. apply IHeq. lia.
      * intros [_ Hnd]. apply IHeq in Hnd. lia.
Qed.

(** X3.  [Unique] answers true exactly for a list without a repeated
    value. *)
Theorem Unique_iff_NoDup {T : Type} `{Countable T} (values : list T) :
  validator.Unique values = true ↔ NoDup values.
Proof.
  unfold validator.Unique. rewrite bool_decide_eq_true, size_uniqueValues.
  destruct (size_list_to_set_NoDup values) as [_ Heq].
  rewrite <- Heq. split; intros Hsz; symmetry; exact Hsz.
Qed.

(** ** context.go *)

(** X4.  [contextGetUser] returns the user that [contextSetUser] stored
    last, whatever the context held before and whatever the router adds
    to it afterwards; storing a user changes nothing else of the
    request, and leaves the values under other keys in place.  Without
    a stored user [contextGetUser] panics with its message. *)
Theorem contextSetUser_contextGetUser (r : Request) (u : User) :
  contextGetUser (contextSetUser r u) = inl u
  ∧ (∀ u', contextGetUser (contextSetUser (contextSetUser r u') u) = inl u)
  ∧ (∀ ps, contextGetUser (withParams ps (contextSetUser r u)) = inl u)
  ∧ (Method (contextSetUser r u) = Method r
     ∧ URLPath (contextSetUser r u) = URLPath r
     ∧ ReqHeader (contextSetUser r u) = ReqHeader r)
  ∧ context_Value routerParamsKey (Ctx (contextSetUser r u))
      = context_Value routerParamsKey (Ctx r)
  ∧ (context_Value contextKeyUser (Ctx r) = None →
     contextGetUser r = inr missingUser).
Proof.
  repeat split.
  - intros ps. rewrite contextGetUser_withParams. reflexivity.
  - intros Hnone. unfold contextGetUser. rewrite Hnone. reflexivity.
Qed.

(** ** authenticate and the checks behind it *)

(** X5.  On every path [authenticate] appends Authorization to the
    values of the response's Vary header, keeping the values already
    there, and touches no other header, before it answers or hands the
    request on. *)
Theorem authenticate_adds_Vary (app : application)
    (W : Type) `{!ResponseWriter W} `{!ResponseWriterLaws W}
    (w : W) (r : Request) (st : appState) :
  ∃ w', ((∃ res, res.1.1 = Returned
                 ∧ (res = invalidAuthenticationTokenResponse W _ w' r st
                    ∨ ∃ e, res = serverErrorResponse e W _ w' r st)
                 ∧ ∀ next, authenticate app next W _ w r st = res)
         ∨ (∃ u, ∀ next, authenticate app next W _ w r st =
                           next W _ w' (contextSetUser r u) st))
        ∧ Header w' !! "Vary" =
            Some (HttpHeader.Values "Vary" (Header w) ++ ["Authorization"])
        ∧ ∀ key, key ≠ "Vary" → Header w' !! key = Header w !! key.
Proof.
  exists (updHeader (HttpHeader.Add "Vary" "Authorization") w).
  split; [|split].
  - destruct (String.eqb (authorizationOf r) "") eqn:Habs.
    + apply String.eqb_eq in Habs. right. exists AnonymousUser.
      intros next. apply authenticate_absent. exact Habs.
    + apply String.eqb_neq in Habs.
      destruct (strings_Split (authorizationOf r) space)
        as [|scheme [|tok [|x l]]] eqn:Hs.
      1,2,4: left; eexists; split; [|split; [left; reflexivity|]];
        [reflexivity|]; intros next; apply authenticate_malformed;
        [exact Habs| intros t Ht; apply bearerShape_Split in Ht; congruence].
      destruct (String.eqb scheme "Bearer") eqn:Hb.
      * apply String.eqb_eq in Hb as ->. apply bearerShape_Split in Hs.
        destruct (tokenValid app tok) eqn:Hv.
        -- destruct (Users_GetForToken app ScopeAuthentication tok)
             as [u|e] eqn:Hl.
           ++ right. exists u. intros next.
              rewrite (authenticate_bearer _ _ _ _ _ _ tok Hs).
              cbv zeta. rewrite Hv, Hl. reflexivity.
           ++ left. destruct (errors_Is e ErrRecordNotFound) eqn:Hnf.
              ** eexists. split; [|split; [left; reflexivity|]];
                   [reflexivity|]. intros next.
                 rewrite (authenticate_bearer _ _ _ _ _ _ tok Hs).
                 cbv zeta. rewrite Hv, Hl, Hnf. reflexivity.
              ** eexists. split; [|split; [right; exists e; reflexivity|]];
                   [reflexivity|]. intros next.
                 rewrite (authenticate_bearer _ _ _ _ _ _ tok Hs).
                 cbv zeta. rewrite Hv, Hl, Hnf. reflexivity.
        -- left. eexists. split; [|split; [left; reflexivity|]];
             [reflexivity|]. intros next.
           rewrite (authenticate_bearer _ _ _ _ _ _ tok Hs).
           cbv zeta. rewrite Hv. reflexivity.
      * left. eexists. split; [|split; [left; reflexivity|]]; [reflexivity|].
        intros next. apply authenticate_malformed; [exact Habs|].
        intros t Ht. apply bearerShape_Split in Ht. rewrite Hs in Ht.
        injection Ht as -> _. discriminate.
  - rewrite Header_Add_lookup, decide_True by reflexivity. reflexivity.
  - intros key Hne. rewrite Header_Add_lookup, decide_False by congruence.
    reflexivity.
Qed.

(** X6.  A request without an Authorization header is refused with the
    AuthenticationRequired response by each of the three checks placed
    behind [authenticate]: the handler they guard is not called and, for
    [requirePermission], the permission store is not consulted. *)
Theorem anonymous_request_refused (app : application) (code : string)
    (next : Handler) (W : Type) `{!ResponseWriter W} (w : W) (r : Request)
    (st : appState) :
  authorizationOf r = "" →
  let refused :=
    authenticationRequiredResponse W _
      (updHeader (HttpHeader.Add "Vary" "Authorization") w)
      (contextSetUser r AnonymousUser) st in
  authenticate app (requireAuthenticatedUser app next) W _ w r st = refused
  ∧ authenticate app (requireActivatedUser app next) W _ w r st = refused
  ∧ authenticate app (requirePermission app code next) W _ w r st = refused.
Proof.
  intros Habs refused. subst refused.
  rewrite !(authenticate_absent _ _ _ _ _ _ Habs).
  rewrite (requireAuthenticatedUser_user _ _ _ _ _ _ AnonymousUser
             (contextGetUser_contextSetUser r AnonymousUser)).
  rewrite (requireActivatedUser_user _ _ _ _ _ _ AnonymousUser
             (contextGetUser_contextSetUser r AnonymousUser)).
  rewrite (requirePermission_user _ _ _ _ _ _ _ AnonymousUser
             (contextGetUser_contextSetUser r AnonymousUser)).
  repeat split.
Qed.

(** X7.  For an anonymous or an inactive principal the answer of
    [requirePermission] is fixed before the permission store is reached:
    it is the same for every store, every permission code and every
    guarded handler. *)
Theorem requirePermission_short_circuits (app app' : application)
    (code code' : string) (next next' : Handler)
    (W : Type) `{!ResponseWriter W} (w : W) (r : Request) (st : appState)
    (u : User) :
  contextGetUser r = inl u →
  IsAnonymous u = true ∨ Activated u = false →
  requirePermission app code next W _ w r st
    = requirePermission app' code' next' W _ w r st
  ∧ requirePermission app code next W _ w r st
    = if IsAnonymous u then authenticationRequiredResponse W _ w r st
      else inactiveAccountResponse W _ w r st.
Proof.
  intros Hu Hcase.
  rewrite !(requirePermission_user _ _ _ _ _ _ _ u Hu).
  destruct (IsAnonymous u); [split; reflexivity|].
  destruct Hcase as [Hanon|Hact]; [discriminate|].
  rewrite Hact. split; reflexivity.
Qed.

(** X8.  [authenticate] reads the user store under the authentication
    scope only: two applications whose token check agrees and whose
    stores agree on that scope authenticate every request alike,
    however the stores differ on other scopes. *)
Theorem authenticate_uses_authentication_scope_only (app app' : application)
    (next : Handler) (W : Type) `{!ResponseWriter W} (w : W) (r : Request)
    (st : appState) :
  (∀ tok, tokenValid app tok = tokenValid app' tok) →
  (∀ tok, Users_GetForToken app ScopeAuthentication tok
            = Users_GetForToken app' ScopeAuthentication tok) →
  authenticate app next W _ w r st = authenticate app' next W _ w r st.
Proof.
  intros Hvalid Hstore. unfold authenticate.
  destruct (String.eqb _ ""); [reflexivity|].
  destruct (strings_Split _ space) as [|scheme [|tok [|x l]]]; try reflexivity.
  destruct (negb (String.eqb scheme "Bearer")); [reflexivity|].
  fold (tokenValid app tok). fold (tokenValid app' tok).
  rewrite Hvalid, Hstore. reflexivity.
Qed.

(** ** enableCORS beyond the pre-flight answer *)

Lemma corsOrigins_untrusted {W : Type} `{!ResponseWriter W} (r : Request)
    (origin : string) (trusted : list string) (w : W) :
  origin ∉ trusted → corsOrigins r origin trusted w = (w, false).
Proof.
  induction trusted as [|o rest IH]; intros Hnin; [reflexivity|].
  simpl. apply not_elem_of_cons in Hnin as [Hne Hnin].
  apply String.eqb_neq in Hne. rewrite Hne. apply IH. exact Hnin.
Qed.

Lemma corsOrigins_simple {W : Type} `{!ResponseWriter W} (r : Request)
    (origin : string) (trusted : list string) (w : W) :
  origin ∈ trusted → isPreflight r = false →
  corsOrigins r origin trusted w =
    (updHeader (HttpHeader.Set_ "Access-Control-Allow-Origin" origin) w, false).
Proof.
  intros Hin Hpre. induction trusted as [|o rest IH].
  - inversion Hin.
  - simpl. destruct (String.eqb origin o) eqn:Ho.
    + rewrite Hpre. reflexivity.
    + apply String.eqb_neq in Ho. apply elem_of_cons in Hin as [Heq|Hin];
        [contradiction|]. apply IH. exact Hin.
Qed.

(** X9.  A request whose Origin header is absent or names an origin
    that is not trusted goes on to the next handler, pre-flight or not,
    with no header added beyond the two [Add] calls of the stage: no
    Access-Control header is set for it.  A request from a trusted
    origin that is not a pre-flight goes on too, with
    Access-Control-Allow-Origin set to exactly that origin. *)
Theorem enableCORS_passes_on (app : application) (next : Handler)
    (W : Type) `{!ResponseWriter W} (w : W) (r : Request) (st : appState) :
  let origin := HttpHeader.Get "Origin" (ReqHeader r) in
  let w1 := updHeader (HttpHeader.Add "Vart" "Access-Control-Request-Method")
              (updHeader (HttpHeader.Add "Vary" "Origin") w) in
  (origin = "" ∨ origin ∉ cors_trustedOrigins (appConfig app) →
     enableCORS app next W _ w r st = next W _ w1 r st)
  ∧ (origin ≠ "" → origin ∈ cors_trustedOrigins (appConfig app) →
     isPreflight r = false →
     enableCORS app next W _ w r st =
       next W _
         (updHeader (HttpHeader.Set_ "Access-Control-Allow-Origin" origin) w1)
         r st).
Proof.
  intros origin w1. subst origin w1. split.
  - intros Hcase. unfold enableCORS.
    destruct (String.eqb (HttpHeader.Get "Origin" (ReqHeader r)) "") eqn:He.
    + reflexivity.
    + destruct Hcase as [Hempty|Hnin].
      * rewrite Hempty in He. discriminate.
      * simpl negb. cbv iota.
        rewrite (corsOrigins_untrusted _ _ _ _ Hnin). reflexivity.
  - intros Hne Hin Hpre. unfold enableCORS.
    rewrite (eqb_empty_false _ Hne). simpl negb. cbv iota.
    rewrite (corsOrigins_simple _ _ _ _ Hin Hpre). reflexivity.
Qed.

(** ** rateLimit and the sweep of its goroutine *)

Lemma insert_alter_insert {A : Type} (f : A → A) (i : string) (x y : A)
    (m : gmap string A) :
  <[i := x]> (alter f i (<[i := y]> m)) = <[i := x]> m.
Proof. rewrite insert_alter_same. apply insert_insert_eq. Qed.

(** The state [rateLimit] leaves for the stage behind it, or for the
    rejection. *)
Lemma rateLimit_state (app : application)
    (W : Type) `{!ResponseWriter W} (w : W) (r : Request) (st : appState) :
  limiter_enabled (appConfig app) = true →
  ∃ l, let st' :=
         setClients (<[realip_FromRequest app r :=
                        {| limiter := l; lastSeen := clock st |}]> (clients st))
                    st in
       (∀ next, rateLimit app next W _ w r st = next W _ w r st')
       ∨ (∀ next, rateLimit app next W _ w r st =
                    rateLimitExceededResponse W _ w r st').
Proof.
  intros Hen. unfold rateLimit. rewrite Hen. cbv zeta.
  destruct (clients st !! realip_FromRequest app r) as [c|] eqn:Hc.
  - rewrite lookup_alter_eq, Hc. simpl.
    destruct (rate.Allow (clock st) (limiter c)) as [ok l]. simpl.
    exists l. rewrite insert_alter_same.
    destruct ok; simpl; [left|right]; intros next; reflexivity.
  - rewrite lookup_alter_eq, lookup_insert_eq. simpl.
    destruct (rate.Allow (clock st) _) as [ok l]. simpl.
    exists l. rewrite insert_alter_insert.
    destruct ok; simpl; [left|right]; intros next; reflexivity.
Qed.

(** X10.  With the limiter enabled, [rateLimit] either hands the request
    on unchanged or answers it with the rate-limit rejection, and in
    both cases leaves a state in which the client's own entry exists
    with [lastSeen] at the current time, every other client's entry is
    as before, and the clock, the counters and the error log are
    untouched.  With the limiter disabled it is the next handler, on
    the same state. *)
Theorem rateLimit_touches_one_entry (app : application)
    (W : Type) `{!ResponseWriter W} (w : W) (r : Request) (st : appState) :
  (limiter_enabled (appConfig app) = true →
   ∃ st',
     ((∀ next, rateLimit app next W _ w r st = next W _ w r st')
      ∨ (∀ next, rateLimit app next W _ w r st =
                   rateLimitExceededResponse W _ w r st'))
     ∧ (∃ c, clients st' !! realip_FromRequest app r = Some c
             ∧ lastSeen c = clock st)
     ∧ (∀ ip, ip ≠ realip_FromRequest app r →
          clients st' !! ip = clients st !! ip)
     ∧ clock st' = clock st ∧ vars st' = vars st
     ∧ errorLog st' = errorLog st)
  ∧ (limiter_enabled (appConfig app) = false →
     ∀ next, rateLimit app next W _ w r st = next W _ w r st).
Proof.
  split.
  - intros Hen. destruct (rateLimit_state app W w r st Hen) as [l Hl].
    cbv zeta in Hl. eexists. split; [exact Hl|].
    split; [|split; [|repeat split]].
    + eexists. split; [apply lookup_insert_eq|reflexivity].
    + intros ip Hne. simpl. apply lookup_insert_ne. congruence.
  - intros Hoff next. unfold rateLimit. rewrite Hoff. reflexivity.
Qed.

(** X11.  After a sweep the map holds exactly the entries it held
    before whose [lastSeen] is at most three minutes old: an entry idle
    for longer is gone, a younger one is kept as it was, and the sweep
    adds nothing. *)
Theorem sweepClients_lookup (now : Z) (cs : gmap string client)
    (ip : string) (c : client) :
  sweepClients now cs !! ip = Some c
  ↔ cs !! ip = Some c ∧ now - lastSeen c ≤ 3 * Minute.
Proof.
  unfold sweepClients. rewrite map_lookup_filter_Some. simpl.
  split; intros [Hc Hage]; (split; [exact Hc|lia]).
Qed.

(** X12.  A client whose request [rateLimit] has handled, admitted or
    rejected, stays in the map through every sweep that runs within
    three minutes of that request, and is removed by a sweep that runs
    later, unless it sends another request first. *)
Theorem rateLimit_then_sweep (app : application)
    (W : Type) `{!ResponseWriter W} (w : W) (r : Request) (st : appState) :
  limiter_enabled (appConfig app) = true →
  ∃ st',
    ((∀ next, rateLimit app next W _ w r st = next W _ w r st')
     ∨ (∀ next, rateLimit app next W _ w r st =
                  rateLimitExceededResponse W _ w r st'))
    ∧ (∀ now, now - clock st ≤ 3 * Minute →
         ∃ c, sweepClients now (clients st') !! realip_FromRequest app r
                = Some c ∧ lastSeen c = clock st)
    ∧ (∀ now, 3 * Minute < now - clock st →
         sweepClients now (clients st') !! realip_FromRequest app r = None).
Proof.
  intros Hen. destruct (rateLimit_state app W w r st Hen) as [l Hl].
  cbv zeta in Hl. eexists. split; [exact Hl|]. simpl. split.
  - intros now Hage. exists {| limiter := l; lastSeen := clock st |}.
    split; [|reflexivity].
    apply sweepClients_keeps; [apply lookup_insert_eq|exact Hage].
  - intros now Hage.
    eapply sweepClients_evicts; [apply lookup_insert_eq|exact Hage].
Qed.

(** ** metricsResponseWriter as seen by the client *)

Lemma sentStatus_snoc (l : list call) (c : call) :
  sentStatus (l ++ [c]) =
    match l with
    | [] => sentStatus [c]
    | _ => sentStatus l
    end.
Proof. destruct l as [|[s|b] l]; reflexivity. Qed.

Lemma sentBodies_app (l1 l2 : list call) :
  sentBodies (l1 ++ l2) = sentBodies l1 ++ sentBodies l2.
Proof.
  induction l1 as [|[c|b] l1 IH]; simpl; [reflexivity|exact IH|].
  rewrite IH. reflexivity.
Qed.

Lemma sentStatus_first_call (l l' : list call) (c c' : call) :
  (l = [] ↔ l' = []) → sentStatus l = sentStatus l' →
  sentStatus [c] = sentStatus [c'] →
  sentStatus (l ++ [c]) = sentStatus (l' ++ [c']).
Proof.
  intros He Hs Hc. rewrite !sentStatus_snoc.
  destruct l as [|x l]; destruct l' as [|y l']; auto.
  - destruct He as [He _]. discriminate (He eq_refl).
  - destruct He as [_ He]. discriminate (He eq_refl).
Qed.

Lemma snoc_nil_iff (l l' : list call) (c c' : call) :
  l ++ [c] = [] ↔ l' ++ [c'] = [].
Proof.
  split; intros H; apply app_eq_nil in H as [_ H]; discriminate.
Qed.

Lemma sameResponse_runOp (op : writerOp) (mw : metricsResponseWriter recorder)
    (rw : recorder) :
  sameResponse mw rw → sameResponse (runOp mw op) (runOp rw op).
Proof.
  intros (Hh & Hs & Hb & He). unfold sameResponse.
  destruct op as [k v|k v|c|b]; simpl.
  - rewrite Hh. auto.
  - rewrite Hh. auto.
  - split; [exact Hh|]. split; [|split].
    + apply sentStatus_first_call; auto.
    + rewrite !sentBodies_app, Hb. reflexivity.
    + apply snoc_nil_iff.
  - unfold mw_Write. destruct (headerWritten mw); simpl.
    + split; [exact Hh|]. split; [|split].
      * apply sentStatus_first_call; auto.
      * rewrite !sentBodies_app, Hb. reflexivity.
      * apply snoc_nil_iff.
    + split; [exact Hh|]. split; [|split].
      * rewrite (sentStatus_snoc (_ ++ _)).
        destruct (recCalls (inner mw)) as [|x l] eqn:Hm.
        -- destruct He as [He _]. rewrite (He eq_refl). reflexivity.
        -- simpl app. rewrite sentStatus_snoc.
           destruct (recCalls rw) as [|y l'] eqn:Hr.
           ++ destruct He as [_ He]. discriminate (He eq_refl).
           ++ destruct l; exact Hs.
      * rewrite !sentBodies_app, Hb. simpl. rewrite app_nil_r. reflexivity.
      * apply snoc_nil_iff.
Qed.

Lemma sameResponse_runOps (ops : list writerOp)
    (mw : metricsResponseWriter recorder) (rw : recorder) :
  sameResponse mw rw → sameResponse (runOps ops mw) (runOps ops rw).
Proof.
  revert mw rw. induction ops as [|op ops IH]; intros mw rw Hsame.
  - exact Hsame.
  - unfold runOps in *. simpl fold_left. apply IH.
    apply sameResponse_runOp. exact Hsame.
Qed.

(** X13.  Wrapping the server's writer for the metrics is invisible to
    the client: whatever calls a handler makes, the header map, the
    status sent and the bodies sent are the same as if it had written
    to the server's writer directly. *)
Theorem metricsResponseWriter_transparent (ops : list writerOp)
    (rw : recorder) :
  let wrapped := inner (runOps ops (newMetricsResponseWriter rw)) in
  let direct := runOps ops rw in
  recHeader wrapped = recHeader direct
  ∧ sentStatus (recCalls wrapped) = sentStatus (recCalls direct)
  ∧ sentBodies (recCalls wrapped) = sentBodies (recCalls direct).
Proof.
  cbv zeta.
  assert (sameResponse (newMetricsResponseWriter rw) rw) as Hinit
    by (repeat split; auto).
  destruct (sameResponse_runOps ops _ _ Hinit) as (Hh & Hs & Hb & _).
  auto.
Qed.

(** ** The counters of metrics *)

Lemma sumCounters_comm (j1 j2 : string) (z1 z2 y : Z) :
  z1 + (z2 + y) = z2 + (z1 + y).
Proof. lia. Qed.

Lemma sumCounters_Map_Add (key : string) (delta : Z) (m : gmap string Z) :
  sumCounters (expvar_Map_Add key delta m) = sumCounters m + delta.
Proof.
  unfold expvar_Map_Add, sumCounters.
  destruct (m !! key) as [v|] eqn:Hk; simpl.
  - rewrite <- (insert_delete_eq m).
    rewrite map_fold_insert_L;
      [|intros; apply sumCounters_comm; assumption|apply lookup_delete_eq].
    rewrite (map_fold_delete_L _ _ key v m);
      [|intros; apply sumCounters_comm; assumption|exact Hk].
    lia.
  - rewrite map_fold_insert_L;
      [|intros; apply sumCounters_comm; assumption|exact Hk].
    lia.
Qed.

(** X14.  When the wrapped handler returns and leaves the counters
    alone, [metrics] keeps them in step: requests received equal
    responses sent, and the per-status counts add up to the responses
    sent.  When the handler's panic escapes, the request stays counted
    as received but not as answered. *)
Theorem metrics_keeps_counters_in_step (app : application) (next : Handler)
    (W : Type) `{!ResponseWriter W} (w : W) (r : Request) (st : appState) :
  let st1 := setVars (addRequestsReceived (vars st)) st in
  let called := next (metricsResponseWriter W) _
                     (newMetricsResponseWriter w) r st1 in
  countersAgree (vars st) →
  vars called.2 = vars st1 →
  (called.1.1 = Returned →
     countersAgree (vars (metrics app next W _ w r st).2))
  ∧ (∀ v, called.1.1 = Panicked v →
       total_requests_received (vars (metrics app next W _ w r st).2)
       = total_responses_sent (vars (metrics app next W _ w r st).2) + 1).
Proof.
  cbv zeta. intros [Hrecv Hsum] Hvars. unfold metrics.
  destruct (next (metricsResponseWriter W) _ (newMetricsResponseWriter w) r _)
    as [[o mw'] st'].
  simpl in Hvars. split.
  - simpl. intros ->. simpl. rewrite Hvars. unfold countersAgree. simpl.
    rewrite sumCounters_Map_Add. lia.
  - simpl. intros v ->. simpl. rewrite Hvars. simpl. lia.
Qed.

(** ** recoverPanic *)

(** X15.  [recoverPanic] leaves a normal return of the wrapped handler
    as it is.  When the handler panics, [recoverPanic] itself returns
    normally: it sets the response header Connection to close on the
    writer as the handler left it and answers with the server-error
    response, which carries the panic value as its error. *)
Theorem recoverPanic_contains_panic (app : application) (next : Handler)
    (W : Type) `{!ResponseWriter W} `{!ResponseWriterLaws W}
    (w : W) (r : Request) (st : appState) :
  (∀ w' st', next W _ w r st = (Returned, w', st') →
     recoverPanic app next W _ w r st = (Returned, w', st'))
  ∧ (∀ v w' st', next W _ w r st = (Panicked v, w', st') →
       ∃ w'', recoverPanic app next W _ w r st
                = serverErrorResponse (ErrMsg v) W _ w'' r st'
              ∧ Header w'' !! "Connection" = Some ["close"]
              ∧ (∀ key, key ≠ "Connection" → Header w'' !! key = Header w' !! key)
              ∧ (recoverPanic app next W _ w r st).1.1 = Returned).
Proof.
  split.
  - intros w' st' Hret. unfold recoverPanic. rewrite Hret. reflexivity.
  - intros v w' st' Hpanic. unfold recoverPanic. rewrite Hpanic.
    eexists. split; [reflexivity|]. split; [|split].
    + rewrite Header_Set_lookup, decide_True by reflexivity. reflexivity.
    + intros key Hne. rewrite Header_Set_lookup, decide_False by congruence.
      reflexivity.
    + reflexivity.
Qed.

(** X16.  A request whose handler panics under [recoverPanic] is counted
    by [metrics] as answered, under the status 500. *)
Theorem panic_counted_as_500 (app : application) (next : Handler)
    (W : Type) `{!ResponseWriter W} (w : W) (r : Request) (st : appState)
    (v : string) (mw' : metricsResponseWriter W) (st' : appState) :
  next (metricsResponseWriter W) _ (newMetricsResponseWriter w) r
       (setVars (addRequestsReceived (vars st)) st) = (Panicked v, mw', st') →
  let res := metrics app (recoverPanic app next) W _ w r st in
  res.1.1 = Returned
  ∧ total_responses_sent (vars res.2) = total_responses_sent (vars st') + 1
  ∧ total_responses_sent_by_status (vars res.2)
    = expvar_Map_Add "500" 1 (total_responses_sent_by_status (vars st')).
Proof.
  intros Hpanic. cbv zeta. unfold metrics, recoverPanic. cbv zeta.
  rewrite Hpanic. destruct mw' as [w' code [|]];
    (split; [reflexivity|]; split; reflexivity).
Qed.

(** X17.  The handler that [routes] assembles returns normally for every
    request, whichever handler behind it panics. *)
Theorem routes_never_panics (app : application)
    (W : Type) `{!ResponseWriter W} (w : W) (r : Request) (st : appState) :
  (routes app W _ w r st).1.1 = Returned.
Proof.
  unfold routes, metrics, recoverPanic.
  destruct (enableCORS app _ _ _ _ _ _) as [[[|v] mw'] st']; reflexivity.
Qed.

(** ** The routes *)

Lemma strings_Split_movie_path (id : string) :
  isSegment id →
  strings_Split ("/v1/movies/" ++ id)%string "/"%char
    = [""; "v1"; "movies"; id].
Proof.
  intros [_ Hno].
  apply strings_Split_more. exists ("v1/movies/" ++ id)%string.
  split; [reflexivity|]. split; [reflexivity|].
  apply strings_Split_more. exists ("movies/" ++ id)%string.
  split; [reflexivity|]. split; [reflexivity|].
  apply strings_Split_two. auto.
Qed.

Lemma matchPath_movie_id (id : string) :
  isSegment id →
  matchPath "/v1/movies/:id" ("/v1/movies/" ++ id)%string = Some [("id", id)]
  ∧ matchPath "/v1/movies" ("/v1/movies/" ++ id)%string = None
  ∧ matchPath "/v1/healthcheck" ("/v1/movies/" ++ id)%string = None.
Proof.
  intros Hseg. unfold matchPath.
  rewrite (strings_Split_movie_path id Hseg).
  destruct Hseg as [Hne _]. apply String.eqb_neq in Hne.
  repeat split. simpl. rewrite Hne. reflexivity.
Qed.

Lemma lookupRoute_cons (rt : route) (rest : list route)
    (method path : string) :
  lookupRoute (rt :: rest) method path =
    if String.eqb (routeMethod rt) method then
      match matchPath (routePattern rt) path with
      | Some ps => Some (routeHandler rt, ps)
      | None => lookupRoute rest method path
      end
    else lookupRoute rest method path.
Proof. reflexivity. Qed.

Ltac lookup_route Hmatch :=
  unfold routeTable;
  repeat (rewrite lookupRoute_cons;
          cbn [routeMethod routePattern routeHandler];
          simpl (String.eqb _ _); cbv iota;
          rewrite ?(proj1 Hmatch), ?(proj1 (proj2 Hmatch)),
                  ?(proj2 (proj2 Hmatch)));
  try reflexivity.

(** X18.  For every identifier that is one path segment, the routes
    GET, PATCH and DELETE /v1/movies/<id> lead to their handlers only
    through [requirePermission], with movies:read for GET and
    movies:write for PATCH and DELETE, and the request that is checked
    carries the identifier as the parameter id. *)
Theorem movie_id_routes_are_guarded (app : application) (id : string)
    (W : Type) `{!ResponseWriter W} (w : W) (r : Request) (st : appState) :
  isSegment id →
  URLPath r = ("/v1/movies/" ++ id)%string →
  let r' := withParams [("id", id)] r in
  (Method r = "GET" →
     router app W _ w r st =
       requirePermission app PermissionRead (showMovieHandler app) W _ w r' st)
  ∧ (Method r = "PATCH" →
       router app W _ w r st =
         requirePermission app PermissionWrite (updateMovieHandler app)
           W _ w r' st)
  ∧ (Method r = "DELETE" →
       router app W _ w r st =
         requirePermission app PermissionWrite (deleteMovieHandler app)
           W _ w r' st).
Proof.
  intros Hseg Hpath r'. subst r'.
  pose proof (matchPath_movie_id id Hseg) as Hmatch.
  unfold router, router_ServeHTTP. rewrite Hpath.
  split; [|split]; intros ->.
  - assert (lookupRoute (routeTable app) "GET" ("/v1/movies/" ++ id)%string
            = Some (requirePermission app PermissionRead (showMovieHandler app),
                    [("id", id)])) as -> by lookup_route Hmatch.
    reflexivity.
  - assert (lookupRoute (routeTable app) "PATCH" ("/v1/movies/" ++ id)%string
            = Some (requirePermission app PermissionWrite
                      (updateMovieHandler app), [("id", id)])) as ->
      by lookup_route Hmatch.
    reflexivity.
  - assert (lookupRoute (routeTable app) "DELETE" ("/v1/movies/" ++ id)%string
            = Some (requirePermission app PermissionWrite
                      (deleteMovieHandler app), [("id", id)])) as ->
      by lookup_route Hmatch.
    reflexivity.
Qed.

(** X19.  The health check and the three identity-establishing routes
    are wired without a check: the router hands the request, as it is,
    straight to their handlers, so that behind [authenticate] they are
    open to every principal, the anonymous one included. *)
Theorem open_routes_are_unguarded (app : application)
    (W : Type) `{!ResponseWriter W} (w : W) (r : Request) (st : appState) :
  (Method r = "GET" → URLPath r = "/v1/healthcheck" →
     router app W _ w r st = healthcheckHandler app W _ w r st)
  ∧ (Method r = "POST" → URLPath r = "/v1/users" →
       router app W _ w r st = registerUserHandler app W _ w r st)
  ∧ (Method r = "PUT" → URLPath r = "/v1/users/activated" →
       router app W _ w r st = activateUserHandler app W _ w r st)
  ∧ (Method r = "POST" → URLPath r = "/v1/tokens/authentication" →
       router app W _ w r st =
         createAuthenticationTokenHandler app W _ w r st).
Proof.
  unfold router, router_ServeHTTP.
  repeat split; intros -> ->; reflexivity.
Qed.

(** ** serve without a clean shutdown *)

(** X20.  When [ListenAndServe] fails with an error other than
    [ErrServerClosed], [serve] returns that error at once, signal or
    not.  [serve] does not return exactly when no signal arrives and
    the listener did not fail that way.  After a signal, an error of
    the shutdown is what [serve] returns. *)
Theorem serve_failures (cfg : config) (rn : run) :
  (∀ e, listenError rn = Some e → e ≠ ErrServerClosed →
     serve cfg rn = Returns (Some e))
  ∧ (serve cfg rn = Blocks ↔
     signal rn = None
     ∧ (listenError rn = None ∨ listenError rn = Some ErrServerClosed))
  ∧ (∀ s e, signal rn = Some s → listenError rn = None →
       Server_Shutdown (30 * Second) rn = Some e →
       serve cfg rn = Returns (Some e)).
Proof.
  unfold serve, Server_ListenAndServe. split; [|split].
  - intros e -> Hne. destruct e; try reflexivity. contradiction.
  - destruct (listenError rn) as [e|], (signal rn) as [s|];
      try destruct e; simpl; split;
      try discriminate; try (intros [? _]; discriminate);
      try (intros [_ [?|?]]; discriminate); auto.
  - intros s e -> -> ->. reflexivity.
Qed.

(** ** One request through the whole pipeline *)

(** X21.  With the limiter disabled, a GET /debug/vars without
    Authorization and Origin headers runs through all five stages to
    the expvar handler.  The server's writer receives the implicit
    [WriteHeader 200] of the wrapper and then the counters, in which
    this request is already counted as received but not yet as
    answered; the response carries Vary with the values Origin and
    Authorization appended and the Vart header; afterwards the request
    is counted as answered, under the status 200. *)
Theorem debug_vars_end_to_end (app : application) (rw : recorder)
    (r : Request) (st : appState) :
  limiter_enabled (appConfig app) = false →
  Method r = "GET" → URLPath r = "/debug/vars" →
  authorizationOf r = "" →
  HttpHeader.Get "Origin" (ReqHeader r) = "" →
  let res := routes app recorder _ rw r st in
  res.1.1 = Returned
  ∧ recCalls res.1.2 =
      recCalls rw ++ [CallWriteHeader StatusOK;
                      CallWrite (VarsBody (addRequestsReceived (vars st)))]
  ∧ recHeader res.1.2 =
      HttpHeader.Add "Vary" "Authorization"
        (HttpHeader.Add "Vart" "Access-Control-Request-Method"
           (HttpHeader.Add "Vary" "Origin" (recHeader rw)))
  ∧ vars res.2 = addResponseSent StatusOK 0 (addRequestsReceived (vars st))
  ∧ clients res.2 = clients st.
Proof.
  intros Hoff Hm Hp Habs Horigin. cbv zeta.
  unfold routes, metrics, recoverPanic, enableCORS. cbv zeta.
  rewrite Horigin. simpl negb. cbv iota.
  unfold rateLimit. rewrite Hoff.
  rewrite (authenticate_absent _ _ _ _ _ _ Habs).
  unfold router, router_ServeHTTP.
  change (Method (contextSetUser r AnonymousUser)) with (Method r).
  change (URLPath (contextSetUser r AnonymousUser)) with (URLPath r).
  rewrite Hm, Hp, lookupRoute_debug_vars. simpl.
  rewrite Z.sub_diag, <- app_assoc. repeat split.
Qed.

(** * The further properties at concrete inputs *)

Lemma authenticate_adds_Vary_witness :
  ∃ w', ((∃ res, res.1.1 = Returned
                 ∧ (res = invalidAuthenticationTokenResponse recorder _ w'
                            Sample.aliceCreates Sample.st0
                    ∨ ∃ e, res = serverErrorResponse e recorder _ w'
                                   Sample.aliceCreates Sample.st0)
                 ∧ ∀ next, authenticate Sample.app next recorder _ newRecorder
                             Sample.aliceCreates Sample.st0 = res)
         ∨ (∃ u, ∀ next, authenticate Sample.app next recorder _ newRecorder
                           Sample.aliceCreates Sample.st0 =
                         next recorder _ w'
                           (contextSetUser Sample.aliceCreates u) Sample.st0))
        ∧ Header w' !! "Vary" = Some ["Authorization"]
        ∧ ∀ key, key ≠ "Vary" → Header w' !! key = Header newRecorder !! key.
Proof.
  exact (authenticate_adds_Vary Sample.app recorder newRecorder
           Sample.aliceCreates Sample.st0).
Defined.

Lemma anonymous_request_refused_witness :
  authorizationOf Sample.anonCreates = ""
  ∧ authenticate Sample.app
      (requirePermission Sample.app PermissionWrite
         (createMovieHandler Sample.app))
      recorder _ newRecorder Sample.anonCreates Sample.st0 =
    authenticationRequiredResponse recorder _
      (updHeader (HttpHeader.Add "Vary" "Authorization") newRecorder)
      (contextSetUser Sample.anonCreates AnonymousUser) Sample.st0.
Proof.
  assert (authorizationOf Sample.anonCreates = "") as Habs
    by (vm_compute; reflexivity).
  split; [exact Habs|].
  exact (proj2 (proj2 (anonymous_request_refused Sample.app PermissionWrite
                         (createMovieHandler Sample.app) recorder newRecorder
                         Sample.anonCreates Sample.st0 Habs))).
Defined.

Lemma requirePermission_short_circuits_witness :
  Activated Sample.bob = false
  ∧ requirePermission Sample.app PermissionWrite
      (createMovieHandler Sample.app) recorder _ newRecorder
      (contextSetUser Sample.aliceCreates Sample.bob) Sample.st0 =
    inactiveAccountResponse recorder _ newRecorder
      (contextSetUser Sample.aliceCreates Sample.bob) Sample.st0.
Proof.
  split; [reflexivity|].
  exact (proj2 (requirePermission_short_circuits Sample.app Sample.app
                  PermissionWrite PermissionRead
                  (createMovieHandler Sample.app) Sample.panics
                  recorder newRecorder
                  (contextSetUser Sample.aliceCreates Sample.bob) Sample.st0
                  Sample.bob eq_refl (or_intror eq_refl))).
Defined.

Lemma authenticate_uses_authentication_scope_only_witness :
  Users_GetForToken (Sample.withStore Sample.getForToken2 true)
    "activation" Sample.aliceToken
    ≠ Users_GetForToken (Sample.withStore Sample.getForToken true)
        "activation" Sample.aliceToken
  ∧ ∀ next r st,
      authenticate (Sample.withStore Sample.getForToken true) next
        recorder _ newRecorder r st
      = authenticate (Sample.withStore Sample.getForToken2 true) next
          recorder _ newRecorder r st.
Proof.
  split; [vm_compute; discriminate|].
  intros next r st.
  apply (authenticate_uses_authentication_scope_only
           (Sample.withStore Sample.getForToken true)
           (Sample.withStore Sample.getForToken2 true)).
  - intros tok. reflexivity.
  - intros tok. reflexivity.
Defined.

Lemma rateLimit_then_sweep_witness :
  limiter_enabled (appConfig Sample.app) = true
  ∧ ∃ st',
      ((∀ next, rateLimit Sample.app next recorder _ newRecorder
                  Sample.aliceCreates Sample.stDrained
                = next recorder _ newRecorder Sample.aliceCreates st')
       ∨ (∀ next, rateLimit Sample.app next recorder _ newRecorder
                    Sample.aliceCreates Sample.stDrained
                  = rateLimitExceededResponse recorder _ newRecorder
                      Sample.aliceCreates st'))
      ∧ (∀ now, now - clock Sample.stDrained ≤ 3 * Minute →
           ∃ c, sweepClients now (clients st')
                  !! realip_FromRequest Sample.app Sample.aliceCreates = Some c
                ∧ lastSeen c = clock Sample.stDrained)
      ∧ (∀ now, 3 * Minute < now - clock Sample.stDrained →
           sweepClients now (clients st')
             !! realip_FromRequest Sample.app Sample.aliceCreates = None).
Proof.
  split; [reflexivity|].
  exact (rateLimit_then_sweep Sample.app recorder newRecorder
           Sample.aliceCreates Sample.stDrained eq_refl).
Defined.

Lemma metrics_keeps_counters_in_step_witness :
  countersAgree (vars Sample.st0)
  ∧ countersAgree
      (vars (metrics Sample.app (Sample.reply 200 "ok") recorder _ newRecorder
               Sample.aliceCreates Sample.st0).2).
Proof.
  assert (countersAgree (vars Sample.st0)) as Hagree
    by (split; vm_compute; reflexivity).
  split; [exact Hagree|].
  exact (proj1 (metrics_keeps_counters_in_step Sample.app
                  (Sample.reply 200 "ok") recorder newRecorder
                  Sample.aliceCreates Sample.st0 Hagree eq_refl) eq_refl).
Defined.

Lemma recoverPanic_contains_panic_witness :
  ∃ w'', recoverPanic Sample.app Sample.panics recorder _ newRecorder
           Sample.aliceCreates Sample.st0
         = serverErrorResponse (ErrMsg "index out of range") recorder _ w''
             Sample.aliceCreates Sample.st0
         ∧ Header w'' !! "Connection" = Some ["close"]
         ∧ (∀ key, key ≠ "Connection" →
              Header w'' !! key = Header newRecorder !! key)
         ∧ (recoverPanic Sample.app Sample.panics recorder _ newRecorder
              Sample.aliceCreates Sample.st0).1.1 = Returned.
Proof.
  exact (proj2 (recoverPanic_contains_panic Sample.app Sample.panics recorder
                  newRecorder Sample.aliceCreates Sample.st0)
           "index out of range" newRecorder Sample.st0 eq_refl).
Defined.

Lemma panic_counted_as_500_witness :
  total_responses_sent_by_status
    (vars (metrics Sample.app (recoverPanic Sample.app Sample.panics)
             recorder _ newRecorder Sample.aliceCreates Sample.st0).2)
  = expvar_Map_Add "500" 1 ∅.
Proof.
  exact (proj2 (proj2 (panic_counted_as_500 Sample.app Sample.panics recorder
                         newRecorder Sample.aliceCreates Sample.st0
                         "index out of range"
                         (newMetricsResponseWriter newRecorder)
                         (setVars (addRequestsReceived (vars Sample.st0))
                            Sample.st0)
                         eq_refl))).
Defined.

Lemma movie_id_routes_are_guarded_witness :
  isSegment "42"
  ∧ URLPath Sample.aliceDeletes = "/v1/movies/42"
  ∧ router Sample.app recorder _ newRecorder Sample.aliceDeletes Sample.st0 =
    requirePermission Sample.app PermissionWrite
      (deleteMovieHandler Sample.app) recorder _ newRecorder
      (withParams [("id", "42")] Sample.aliceDeletes) Sample.st0.
Proof.
  assert (isSegment "42") as Hseg by (split; [discriminate|reflexivity]).
  split; [exact Hseg|]. split; [reflexivity|].
  exact (proj2 (proj2 (movie_id_routes_are_guarded Sample.app "42" recorder
                         newRecorder Sample.aliceDeletes Sample.st0
                         Hseg eq_refl)) eq_refl).
Defined.

Lemma debug_vars_end_to_end_witness :
  recCalls (routes (Sample.withStore Sample.getForToken false) recorder _
              newRecorder Sample.anonReadsVars Sample.st0).1.2
  = [CallWriteHeader StatusOK;
     CallWrite (VarsBody (addRequestsReceived (vars Sample.st0)))].
Proof.
  refine (proj1 (proj2
            (debug_vars_end_to_end (Sample.withStore Sample.getForToken false)
               newRecorder Sample.anonReadsVars Sample.st0
               eq_refl eq_refl eq_refl _ _)));
    vm_compute; reflexivity.
Defined.
